(** * The Shaky Bridge simulator: a shallow embedding of [app.py]

    The core of [app.py] is the Euler integrator [simulate_bridge], the
    metrics extractor [get_metrics], the cost expression [u_cost], and the
    two threshold classifications that fill [holmes_feedback] and
    [pros]/[cons].  Everything else in the script is page layout.

    Numbers.  The script computes with binary64 floats (Python [float] and
    [numpy.float64]).  The program below is written once over the interface
    [Scalar], which lists the operations the script uses, and is run at two
    instances:
    - [binary64]: Rocq's primitive IEEE-754 floats, the arithmetic the
      script really performs (round to nearest, infinities, NaN);
    - [exact]: the rationals [Q], arithmetic without rounding, overflow or
      NaN, on which the order and algebra of the results is stated.
    Facts that only follow the control flow are proved for every instance. *)

From Stdlib Require Import String ZArith QArith Qround Qabs Qminmax.
From Stdlib Require Import List Bool Lia Lqa.
From Stdlib Require Import PrimFloat FloatOps SpecFloat FloatAxioms.
From Equations Require Import Equations.
Import ListNotations.

Set Implicit Arguments.

(** ** Exceptions *)

(** The Python exceptions the core can raise. *)
Inductive exn : Type :=
| ZeroDivisionError   (* Python float division by zero *)
| OverflowError       (* int() of an infinity *)
| ValueError          (* int() of a NaN, negative array size, max of empty *)
| IndexError.         (* index out of range *)

Inductive result (A : Type) : Type :=
| Ok (a : A)
| Raise (e : exn).
Arguments Raise {A} e.

Definition bind {A B : Type} (c : result A) (k : A -> result B) : result B :=
  match c with
  | Ok a => k a
  | Raise e => Raise e
  end.

Declare Scope result_scope.
Delimit Scope result_scope with result.
Notation "x <- c ;; k" := (bind c (fun x => k))
  (at level 61, c at next level, right associativity) : result_scope.
Notation "' p <- c ;; k" := (bind c (fun x => let p := x in k))
  (at level 61, p pattern, c at next level, right associativity) : result_scope.
Local Open Scope result_scope.

(** ** The numeric interface *)

Class Scalar (F : Type) : Type := {
  lit : Q -> F;                 (* a numeric literal of the script *)
  of_int : Z -> F;              (* int -> float conversion *)
  add : F -> F -> F;
  sub : F -> F -> F;
  mul : F -> F -> F;
  div : F -> F -> F;            (* numpy scalar division: never raises *)
  neg : F -> F;
  fabs : F -> F;
  eqb : F -> F -> bool;
  ltb : F -> F -> bool;
  leb : F -> F -> bool;
  to_int : F -> result Z        (* Python int(): truncation toward zero *)
}.

Declare Scope scalar_scope.
Delimit Scope scalar_scope with sc.
Infix "+" := add : scalar_scope.
Infix "-" := sub : scalar_scope.
Infix "*" := mul : scalar_scope.
Infix "/" := div : scalar_scope.
Notation "- x" := (neg x) : scalar_scope.
Infix "=?" := eqb : scalar_scope.
Infix "<?" := ltb : scalar_scope.
Infix "<=?" := leb : scalar_scope.
Notation "x >? y" := (ltb y x) (only parsing) : scalar_scope.
Notation "x >=? y" := (leb y x) (only parsing) : scalar_scope.

(** *** binary64 *)

Module Binary64.

(** [int -> float64]: the integer rounded to the nearest double. *)
Definition of_Z (z : Z) : float :=
  SF2Prim (binary_normalize prec emax z 0 false).

(** A literal [n/d] with [n] and [d] below [2^53] is the correctly
    rounded quotient of two exact doubles: the double Python reads. *)
Definition of_Q (q : Q) : float :=
  PrimFloat.div (of_Z (Qnum q)) (of_Z (Zpos (Qden q))).

(** Python [int(f)]. *)
Definition trunc (f : float) : result Z :=
  match Prim2SF f with
  | S754_zero _ => Ok 0%Z
  | S754_infinity _ => Raise OverflowError
  | S754_nan => Raise ValueError
  | S754_finite s m e =>
      let a := Z.shiftl (Zpos m) e in
      Ok (if s then (- a)%Z else a)
  end.

End Binary64.

#[export] Instance binary64 : Scalar float := {
  lit := Binary64.of_Q;
  of_int := Binary64.of_Z;
  add := PrimFloat.add;
  sub := PrimFloat.sub;
  mul := PrimFloat.mul;
  div := PrimFloat.div;
  neg := PrimFloat.opp;
  fabs := PrimFloat.abs;
  eqb := PrimFloat.eqb;
  ltb := PrimFloat.ltb;
  leb := PrimFloat.leb;
  to_int := Binary64.trunc
}.

(** *** Exact rationals *)

Module Exact.

Definition ltb (a b : Q) : bool := negb (Qle_bool b a).

(** Truncation toward zero of [n/d]. *)
Definition trunc (q : Q) : result Z := Ok (Z.quot (Qnum q) (Zpos (Qden q))).

End Exact.

(** Division by zero has no value in [Q] ([Qdiv] returns 0 there); every
    statement made at this instance keeps its divisors away from zero. *)
#[export] Instance exact : Scalar Q := {
  lit := fun q => q;
  of_int := inject_Z;
  add := Qplus;
  sub := Qminus;
  mul := Qmult;
  div := Qdiv;
  neg := Qopp;
  fabs := Qabs;
  eqb := Qeq_bool;
  ltb := Exact.ltb;
  leb := Qle_bool;
  to_int := Exact.trunc
}.

(** ** Arrays *)

Section Arrays.
Context {A : Type}.

(** [a[i]] for [0 <= i]. *)
Definition getitem (a : list A) (i : nat) : result A :=
  match nth_error a i with
  | Some v => Ok v
  | None => Raise IndexError
  end.

(** [a[-1]]. *)
Definition getitem_last (a : list A) : result A :=
  match a with
  | [] => Raise IndexError
  | _ :: _ => getitem a (length a - 1)
  end.

Fixpoint update (a : list A) (i : nat) (v : A) : list A :=
  match a, i with
  | [], _ => []
  | _ :: tl, O => v :: tl
  | h :: tl, S j => h :: update tl j v
  end.

(** [a[i] = v] for [0 <= i]. *)
Definition setitem (a : list A) (i : nat) (v : A) : result (list A) :=
  if (i <? length a)%nat then Ok (update a i v) else Raise IndexError.

(** [for i in idx: st = body(st, i)] *)
Fixpoint for_each {S : Type} (body : S -> nat -> result S)
         (idx : list nat) (st : S) : result S :=
  match idx with
  | [] => Ok st
  | i :: rest => st' <- body st i ;; for_each body rest st'
  end.

End Arrays.

(** [range(n)] *)
Definition py_range (n : Z) : list nat := seq 0 (Z.to_nat n).

(** [range(hi, 0, -1)]: [hi, hi-1, ..., 1]. *)
Definition py_range_down (hi : Z) : list nat := rev (seq 1 (Z.to_nat hi)).

(** ** Findings and verdicts *)

(** The ["type"] of a feedback entry. *)
Inductive severity : Type := error | warning | success.

Record finding : Type := Finding {
  title : string;
  type : severity
}.

Definition turbulence : finding := Finding "TURBULENCE WARNING" error.
Definition car_stuck : finding := Finding "CAR STUCK ON THE HILL" warning.
Definition budget_overload : finding := Finding "BUDGET OVERLOAD" warning.
Definition elegant : finding := Finding "ELEGANT SOLUTION" success.

(** [not holmes_feedback] *)
Definition is_empty {A : Type} (l : list A) : bool :=
  match l with [] => true | _ :: _ => false end.

(** The lines of the case report, named by their heading. *)
Inductive verdict : Type :=
| LowOscillation | HighRisk
| QuickResponse | SluggishResponse
| Economic | Expensive.

(** ** The program *)

Section Program.
Context {F : Type} {num : Scalar F}.
Local Open Scope scalar_scope.

(** *** numpy *)

(** [np.zeros(n)] *)
Definition np_zeros (n : Z) : result (list F) :=
  if (n <? 0)%Z then Raise ValueError else Ok (repeat (lit 0) (Z.to_nat n)).

(** [np.linspace(start, stop, num)] with [endpoint=True]:
    [arange(num) * step + start] with [step = (stop - start)/(num - 1)],
    the last sample overwritten by [stop]. *)
Definition np_linspace (start stop : F) (n : Z) : result (list F) :=
  if (n <? 0)%Z then Raise ValueError else
  let dv := (n - 1)%Z in
  let delta := stop - start in
  let y := map (fun i => of_int (Z.of_nat i)) (seq 0 (Z.to_nat n)) in
  let y :=
    if (0 <? dv)%Z then
      let step := delta / of_int dv in
      if step =? lit 0
      then map (fun a => (a / of_int dv) * delta) y
      else map (fun a => a * step) y
    else map (fun a => a * delta) y in
  let y := map (fun a => a + start) y in
  Ok (if (1 <? n)%Z then update y (Z.to_nat n - 1) stop else y).

(** [np.maximum]: a NaN operand wins. *)
Definition np_maximum (a b : F) : F :=
  if (a >=? b) || negb (a =? a) then a else b.

(** [np.max(a)] *)
Definition np_max (a : list F) : result F :=
  match a with
  | [] => Raise ValueError
  | h :: tl => Ok (fold_left np_maximum tl h)
  end.

(** The eight running sums [r[0..7]] of numpy's unrolled summation. *)
Definition lanes : Type := (F * F * F * F * F * F * F * F)%type.

(** [for (i = 8; i < n - (n % 8); i += 8) r[j] += a[i + j]]: every full
    block of eight samples is added to the running sums; what is left of
    the array (fewer than eight samples) is returned with them. *)
Fixpoint pairwise_unrolled (r : lanes) (a : list F) : lanes * list F :=
  match a with
  | a0 :: a1 :: a2 :: a3 :: a4 :: a5 :: a6 :: a7 :: rest =>
      let '(r0, r1, r2, r3, r4, r5, r6, r7) := r in
      pairwise_unrolled
        (r0 + a0, r1 + a1, r2 + a2, r3 + a3,
         r4 + a4, r5 + a5, r6 + a6, r7 + a7) rest
  | _ => (r, a)
  end.

(** [res = ((r[0] + r[1]) + (r[2] + r[3])) +
          ((r[4] + r[5]) + (r[6] + r[7]))] *)
Definition lanes_sum (r : lanes) : F :=
  let '(r0, r1, r2, r3, r4, r5, r6, r7) := r in
  ((r0 + r1) + (r2 + r3)) + ((r4 + r5) + (r6 + r7)).

(** numpy's [pairwise_sum] on at most [PW_BLOCKSIZE = 128] samples.
    Fewer than eight are added from left to right to [-0.0].  Otherwise
    the eight running sums start as the first eight samples, take the
    full blocks and are combined, and the samples left over are added to
    that from left to right. *)
Definition pairwise_block (a : list F) : F :=
  match a with
  | a0 :: a1 :: a2 :: a3 :: a4 :: a5 :: a6 :: a7 :: rest =>
      let '(r, tail) :=
        pairwise_unrolled (a0, a1, a2, a3, a4, a5, a6, a7) rest in
      fold_left add tail (lanes_sum r)
  | _ => fold_left add a (- lit 0)
  end.

(** [n2 = n / 2; n2 -= n2 % 8] *)
Definition split_point (n : nat) : nat := (n / 2 - (n / 2) mod 8)%nat.

(** numpy's [pairwise_sum(a, n)]: a block when [n <= 128], the sum of the
    pairwise sums of the two parts [a[:n2]] and [a[n2:]] otherwise. *)
Equations pairwise_sum (a : list F) : F by wf (length a) lt :=
  pairwise_sum a with le_lt_dec (length a) 128 := {
    | left _ => pairwise_block a
    | right _ =>
        pairwise_sum (firstn (split_point (length a)) a)
        + pairwise_sum (skipn (split_point (length a)) a) }.
Next Obligation.
  rewrite length_firstn. unfold split_point.
  pose proof (Nat.div_lt (length a) 2). lia.
Qed.
Next Obligation.
  rewrite length_skipn. unfold split_point.
  assert (64 <= length a / 2)%nat by (apply Nat.div_le_lower_bound; lia).
  pose proof (Nat.mod_upper_bound (length a / 2) 8). lia.
Qed.

(** [np.sum(a)] of a one-dimensional float array: the reduction starts
    from the identity [0.0] and adds the pairwise sum of the array to it
    ([*iop1 += pairwise_sum(a, n)]). *)
Definition np_sum (a : list F) : F := lit 0 + pairwise_sum a.

(** Python's [max(a, b)]: [b] only when [b > a]. *)
Definition py_max (a b : F) : F := if b >? a then b else a.

(** Python's [a / b] on floats. *)
Definition py_div (a b : F) : result F :=
  if b =? lit 0 then Raise ZeroDivisionError else Ok (a / b).

(** *** 3. Simulation Engine *)

Definition state : Type := (list F * list F * list F)%type.

(** One pass through the body of [for i in range(n_steps - 1)]. *)
Definition euler_step (m c k Kp x_target dt : F) (st : state) (i : nat)
  : result state :=
  let '(x, v, u) := st in
  xi <- getitem x i ;;
  u <- setitem u i (Kp * (x_target - xi)) ;;
  vi <- getitem v i ;;
  xi <- getitem x i ;;
  ui <- getitem u i ;;
  let a := (- c * vi - k * xi + ui) / m in
  vi <- getitem v i ;;
  v <- setitem v (i + 1) (vi + a * dt) ;;
  xi <- getitem x i ;;
  vi <- getitem v i ;;
  x <- setitem x (i + 1) (xi + vi * dt) ;;
  Ok (x, v, u).

(** [simulate_bridge] with the velocity array kept in the result. *)
Definition simulate_state (m c k Kp x_target t_max dt : F)
  : result (list F * list F * list F * list F) :=
  q <- py_div t_max dt ;;
  n_steps <- to_int q ;;
  t <- np_linspace (lit 0) t_max n_steps ;;
  x <- np_zeros n_steps ;;
  v <- np_zeros n_steps ;;
  u <- np_zeros n_steps ;;
  ' (x, v, u) <- for_each (euler_step m c k Kp x_target dt)
                          (py_range (n_steps - 1)) (x, v, u) ;;
  Ok (t, x, v, u).

(** [def simulate_bridge(m, c, k, Kp, x_target, t_max=15.0, dt=0.01)] *)
Definition simulate_bridge (m c k Kp x_target t_max dt : F)
  : result (list F * list F * list F) :=
  ' (t, x, _, u) <- simulate_state m c k Kp x_target t_max dt ;;
  Ok (t, x, u).

(** *** 4. Analysis & Dynamic Feedback *)

(** The [for i in range(len(x_arr)-1, 0, -1)] loop with its [break]:
    the time of the first listed index that leaves the tolerance band,
    [settling_time] unchanged when none does. *)
Fixpoint settle_scan (x_arr t_arr : list F) (target tol : F)
         (idx : list nat) (settling_time : F) : result F :=
  match idx with
  | [] => Ok settling_time
  | i :: rest =>
      xi <- getitem x_arr i ;;
      if fabs (xi - target) >? tol
      then getitem t_arr i
      else settle_scan x_arr t_arr target tol rest settling_time
  end.

(** [def get_metrics(x_arr, t_arr, target)] *)
Definition get_metrics (x_arr t_arr : list F) (target : F)
  : result (F * F) :=
  max_val <- np_max x_arr ;;
  let overshoot := py_max (lit 0) ((max_val - target) / target) * lit 100 in
  let tol := lit 0.05 * target in
  settling_time <- getitem_last t_arr ;;
  settling_time <- settle_scan x_arr t_arr target tol
                     (py_range_down (Z.of_nat (length x_arr) - 1))
                     settling_time ;;
  Ok (overshoot, settling_time).

(** [u_cost = np.sum(np.abs(u_true)) * 0.1] *)
Definition u_cost (u_true : list F) : F :=
  np_sum (map fabs u_true) * lit 0.1.

(** The feedback block: [holmes_feedback] with [status_bg].  A finding
    keeps the ["title"] and ["type"] of the script's dictionary; its icon
    and message are display text. *)
Definition feedback_block (os_true ts_true u_cost : F)
  : list finding * string :=
  let holmes_feedback := [] in
  let status_bg := "#f0f2f6"%string in
  let '(holmes_feedback, status_bg) :=
    if os_true >? lit 30.0 then
      (holmes_feedback ++ [turbulence], "#ffeeee"%string)
    else if ts_true >? lit 10.0 then
      (holmes_feedback ++ [car_stuck], "#fff8e1"%string)
    else (holmes_feedback, status_bg) in
  let holmes_feedback :=
    if u_cost >? lit 500 then holmes_feedback ++ [budget_overload]
    else holmes_feedback in
  if is_empty holmes_feedback && (os_true <? lit 15.0) then
    (holmes_feedback ++ [elegant], "#e8f5e9"%string)
  else (holmes_feedback, status_bg).

Definition holmes_feedback (os_true ts_true u_cost : F) : list finding :=
  fst (feedback_block os_true ts_true u_cost).

(** *** 6. Case Report: the [pros] and [cons] lists

    ([cons] is the list constructor here, so the script's [cons] is
    spelled [cons_].) *)
Definition case_report (os_true ts_true u_cost : F)
  : list verdict * list verdict :=
  let pros := [] in
  let cons_ := [] in
  let '(pros, cons_) :=
    if os_true <? lit 10.0 then (pros ++ [LowOscillation], cons_)
    else (pros, cons_ ++ [HighRisk]) in
  let '(pros, cons_) :=
    if ts_true <? lit 5.0 then (pros ++ [QuickResponse], cons_)
    else (pros, cons_ ++ [SluggishResponse]) in
  let '(pros, cons_) :=
    if u_cost <? lit 300 then (pros ++ [Economic], cons_)
    else (pros, cons_ ++ [Expensive]) in
  (pros, cons_).

Definition pros (os_true ts_true u_cost : F) : list verdict :=
  fst (case_report os_true ts_true u_cost).

Definition cons_ (os_true ts_true u_cost : F) : list verdict :=
  snd (case_report os_true ts_true u_cost).

End Program.

(** ** The script around the core *)

(** Python's [sub in s] on strings. *)
Definition py_in (sub s : string) : bool :=
  match String.index 0 sub s with
  | Some _ => true
  | None => false
  end.

(** The options of the evidence radio button. *)
Definition evidence_options : list string :=
  ["File A: Blue Copy (Reference)";
   "File B: Truck Load Report (Heavy Load)";
   "File C: Maintenance Records (Corrosion)";
   "File D: Weather Report (Storm)"]%string.

Section Script.
Context {F : Type} {num : Scalar F}.
Local Open Scope scalar_scope.

(** What the user sets in the sidebar: the radio button and the sliders.
    A slider exists only in the branch that creates it; the others are
    never read. *)
Record widgets : Type := Widgets {
  evidence : string;
  Kp_slider : F;        (* "Intervention Force (Kp)", 0.0 .. 50.0 *)
  load_status : F;      (* File B, "Load Status", 1.0 .. 2.0 *)
  metal_health : F;     (* File C, "Metal Health", 0.0 .. 2.0 *)
  storm_load : F;       (* File D, "Load", 0.5 .. 2.5 *)
  storm_metal : F       (* File D, "Metal", 0.0 .. 2.0 *)
}.

(** Python's [min(a, b)]: [b] only when [b < a]. *)
Definition py_min (a b : F) : F := if b <? a then b else a.

(** The value handed to [st.sidebar.progress]: [min(Kp/50.0, 1.0)]. *)
Definition tension (Kp : F) : F := py_min (Kp / lit 50.0) (lit 1.0).

(** [m_nom, c_nom, k_nom, x_ref = 2.0, 0.8, 10.0, 1.0] *)
Definition m_nom : F := lit 2.0.
Definition c_nom : F := lit 0.8.
Definition k_nom : F := lit 10.0.
Definition x_ref : F := lit 1.0.

(** [def get_load_context(alpha)] *)
Definition get_load_context (alpha : F) : string * string :=
  if alpha <=? lit 1.0 then ("🐎 Light Carriage", "blue")%string
  else if alpha <=? lit 1.6 then ("🚛 Steam Truck", "orange")%string
  else ("🚂 Freight Train (Overloaded)", "red")%string.

(** [def get_rust_context(alpha)] *)
Definition get_rust_context (alpha : F) : string * string :=
  if alpha >=? lit 1.0 then ("✨ Brand New Metal", "blue")%string
  else if alpha >=? lit 0.5 then ("🔩 Squeaky Joints", "orange")%string
  else ("☠️ Rotten Metal", "red")%string.

(** The branch on the evidence file: [(alpha_m, alpha_c)] and the context
    line the sidebar shows, if any. *)
Definition evidence_file (w : widgets) : F * F * option (string * string) :=
  let alpha_m := lit 1.0 in
  let alpha_c := lit 1.0 in
  if py_in "File A" (evidence w) then (alpha_m, alpha_c, None)
  else if py_in "File B" (evidence w) then
    let alpha_m := load_status w in
    (alpha_m, alpha_c, Some (get_load_context alpha_m))
  else if py_in "File C" (evidence w) then
    let alpha_c := metal_health w in
    (alpha_m, alpha_c, Some (get_rust_context alpha_c))
  else
    let alpha_m := storm_load w in
    let alpha_c := storm_metal w in
    (alpha_m, alpha_c, None).

(** [m_true = alpha_m * m_nom] and [c_true = alpha_c * c_nom] *)
Definition m_true (w : widgets) : F := fst (fst (evidence_file w)) * m_nom.
Definition c_true (w : widgets) : F := snd (fst (evidence_file w)) * c_nom.

(** What sections 3 and 4 of the script compute. *)
Record analysis : Type := Analysis {
  t_grid : list F;
  x_nom : list F;
  u_nom : list F;
  x_true : list F;
  u_true : list F;
  os_true : F;
  ts_true : F;
  os_nom : F;
  ts_nom : F;
  cost : F
}.

(** The two runs, their metrics and the cost, in the order of the script;
    the second run overwrites [t]. *)
Definition analyse (w : widgets) : result analysis :=
  let Kp := Kp_slider w in
  ' (t, x_nom, u_nom) <-
      simulate_bridge m_nom c_nom k_nom Kp x_ref (lit 15.0) (lit 0.01) ;;
  ' (t, x_true, u_true) <-
      simulate_bridge (m_true w) (c_true w) k_nom Kp x_ref
        (lit 15.0) (lit 0.01) ;;
  ' (os_true, ts_true) <- get_metrics x_true t x_ref ;;
  ' (os_nom, ts_nom) <- get_metrics x_nom t x_ref ;;
  let u_cost := u_cost u_true in
  Ok (Analysis t x_nom u_nom x_true u_true
        os_true ts_true os_nom ts_nom u_cost).

(** The scan of [np.argmax] after the first element: [mp] is the maximum
    so far and [idx] its index; a NaN ends the scan. *)
Fixpoint argmax_from (a : list F) (i : nat) (mp : F) (idx : nat) : nat :=
  match a with
  | [] => idx
  | h :: tl =>
      if negb (h <=? mp) then
        if negb (h =? h) then i else argmax_from tl (S i) h i
      else argmax_from tl (S i) mp idx
  end.

(** [np.argmax(a)]: the first index of the maximum, of a NaN if any. *)
Definition np_argmax (a : list F) : result nat :=
  match a with
  | [] => Raise ValueError
  | h :: tl => Ok (if negb (h =? h) then 0%nat else argmax_from tl 1 h 0)
  end.

(** The icons drawn on the graph, each with its coordinates:
    [ax.text(t[np.argmax(x_true)], np.max(x_true), plane)] and
    [ax.text(ts_true, x_true[-1], car)]. *)
Definition graph_icons (t x_true : list F) (os_true ts_true : F)
  : result (list (F * F * string)) :=
  marks <-
    (if os_true >? lit 30.0 then
       i <- np_argmax x_true ;;
       ti <- getitem t i ;;
       peak <- np_max x_true ;;
       Ok [(ti, peak, "✈️"%string)]
     else Ok []) ;;
  if ts_true >? lit 10.0 then
    final <- getitem_last x_true ;;
    Ok (marks ++ [(ts_true, final, "🚗"%string)])
  else Ok marks.

End Script.


(** ** Vocabulary of the statements *)

Section Vocabulary.
Context {F : Type} {num : Scalar F}.
Variables m c k Kp x_target dt : F.
Local Open Scope scalar_scope.

Local Abbreviation zero := (lit 0).
Local Notation "a .[ i ]" := (nth i a zero) (at level 1, format "a .[ i ]").

(** The acceleration the script computes from [x[i]], [v[i]], [u[i]]. *)
Definition accel (xi vi ui : F) : F := (- c * vi - k * xi + ui) / m.

(** What the arrays hold after the passes [0 .. j-1] of the loop. *)
Record euler_inv (n j : nat) (x v u : list F) : Prop := {
  inv_len_x : length x = n;
  inv_len_v : length v = n;
  inv_len_u : length u = n;
  inv_x0 : x.[0] = zero;
  inv_v0 : v.[0] = zero;
  inv_step : forall i, (i < j)%nat ->
    u.[i] = Kp * (x_target - x.[i]) /\
    v.[i + 1] = v.[i] + accel x.[i] v.[i] u.[i] * dt /\
    x.[i + 1] = x.[i] + v.[i] * dt;
  inv_x_rest : forall i, (j < i)%nat -> x.[i] = zero;
  inv_v_rest : forall i, (j < i)%nat -> v.[i] = zero;
  inv_u_rest : forall i, (j <= i)%nat -> u.[i] = zero
}.

(** The eight running sums of the unrolled summation, as a list. *)
Definition lanes_list (r : lanes) : list F :=
  let '(r0, r1, r2, r3, r4, r5, r6, r7) := r in
  [r0; r1; r2; r3; r4; r5; r6; r7].

(** Sample [i] lies outside the tolerance band around the target. *)
Definition exceeds (x_arr : list F) (target tol : F) (i : nat) : bool :=
  fabs (nth i x_arr zero - target) >? tol.

End Vocabulary.

Section ExactVocabulary.
Local Open Scope Q_scope.

(** The admissible inputs of the simulator. *)
Record valid_input (m c k Kp t_max dt : Q) : Prop := {
  mass_pos : 0 < m;
  damping_nonneg : 0 <= c;
  stiffness_pos : 0 < k;
  gain_nonneg : 0 <= Kp;
  horizon_pos : 0 < t_max;
  step_pos : 0 < dt;
  step_lt_horizon : dt < t_max
}.

(** [n = floor(t_max / dt)] as a natural number. *)
Definition n_samples (t_max dt : Q) : nat := Z.to_nat (Qfloor (t_max / dt)).

(** The accumulated control effort in the spec's words: the sum over [i]
    of [|u[i]|]. *)
Fixpoint sum_abs (u : list Q) : Q :=
  match u with
  | [] => 0
  | a :: tl => Qabs a + sum_abs tl
  end.

End ExactVocabulary.

Section Binary64Vocabulary.

(** A signed zero. *)
Definition is_zero (f : float) : Prop := exists s, Prim2SF f = S754_zero s.

(** Neither an infinity nor NaN. *)
Definition is_finite (f : float) : Prop :=
  match Prim2SF f with
  | S754_zero _ | S754_finite _ _ _ => True
  | _ => False
  end.

Definition is_nonzero (f : float) : Prop :=
  match Prim2SF f with
  | S754_zero _ => False
  | _ => True
  end.

Definition is_nan (f : float) : Prop := Prim2SF f = S754_nan.


(** The sign bit is clear, or the value is NaN. *)
Definition unsigned (f : float) : Prop :=
  match Prim2SF f with
  | S754_zero s | S754_infinity s | S754_finite s _ _ => s = false
  | S754_nan => True
  end.

(** Not below zero: a zero, or a positive finite value or infinity. *)
Definition nonneg (f : float) : Prop := PrimFloat.leb 0 f = true.

End Binary64Vocabulary.

Section ScriptVocabulary.
Local Open Scope Q_scope.

(** What the sidebar guarantees: the evidence is one of the radio options
    and every slider is within the bounds it was created with. *)
Record widgets_ok (w : widgets (F := Q)) : Prop := {
  evidence_listed : In (evidence w) evidence_options;
  Kp_range : 0.0 <= Kp_slider w <= 50.0;
  load_status_range : 1.0 <= load_status w <= 2.0;
  metal_health_range : 0.0 <= metal_health w <= 2.0;
  storm_load_range : 0.5 <= storm_load w <= 2.5;
  storm_metal_range : 0.0 <= storm_metal w <= 2.0
}.

End ScriptVocabulary.

(** * Verification *)

(** ** Arrays and loops *)

Section ArrayFacts.
Context {A : Type}.
Implicit Types (a : list A) (i j : nat) (v d : A).

Lemma getitem_nth a i d :
  (i < length a)%nat -> getitem a i = Ok (nth i a d).
Proof.
  intros H. unfold getitem.
  now rewrite (nth_error_nth' a d H).
Qed.

Lemma getitem_out a i : (length a <= i)%nat -> getitem a i = Raise IndexError.
Proof.
  intros H. unfold getitem.
  now apply nth_error_None in H; rewrite H.
Qed.

Lemma length_update a i v : length (update a i v) = length a.
Proof. revert i; induction a as [|h tl IH]; intros [|i]; simpl; auto. Qed.

Lemma nth_update_eq a i v d :
  (i < length a)%nat -> nth i (update a i v) d = v.
Proof.
  revert i; induction a as [|h tl IH]; intros [|i] H; simpl in *;
    try lia; auto.
  apply IH; lia.
Qed.

Lemma nth_update_neq a i j v d :
  i <> j -> nth j (update a i v) d = nth j a d.
Proof.
  revert i j; induction a as [|h tl IH]; intros [|i] [|j] H; simpl;
    try congruence; auto.
Qed.

Lemma setitem_ok a i v :
  (i < length a)%nat -> setitem a i v = Ok (update a i v).
Proof.
  intros H. unfold setitem.
  now apply Nat.ltb_lt in H; rewrite H.
Qed.

Lemma getitem_last_nth a d :
  a <> [] -> getitem_last a = Ok (nth (length a - 1) a d).
Proof.
  destruct a as [|h tl]; [congruence|intros _].
  unfold getitem_last. apply getitem_nth. simpl; lia.
Qed.

Lemma for_each_app {S : Type} (body : S -> nat -> result S) l1 l2 st :
  for_each body (l1 ++ l2) st =
  (st' <- for_each body l1 st ;; for_each body l2 st').
Proof.
  revert st; induction l1 as [|i l1 IH]; intros st; simpl; auto.
  destruct (body st i); simpl; auto.
Qed.

End ArrayFacts.

(** ** The Euler loop, for every arithmetic *)

Section Euler.
Context {F : Type} {num : Scalar F}.
Variables m c k Kp x_target dt : F.
Local Open Scope scalar_scope.

Local Abbreviation zero := (lit 0).
Local Notation "a .[ i ]" := (nth i a zero) (at level 1, format "a .[ i ]").

Lemma euler_step_ok x v u i :
  (i + 1 < length x)%nat -> length v = length x -> length u = length x ->
  euler_step m c k Kp x_target dt (x, v, u) i =
  Ok (update x (i + 1) (x.[i] + v.[i] * dt),
      update v (i + 1)
        (v.[i] + accel m c k x.[i] v.[i] (Kp * (x_target - x.[i])) * dt),
      update u i (Kp * (x_target - x.[i]))).
Proof.
  intros Hi Hv Hu. unfold euler_step.
  rewrite (getitem_nth x zero) by lia. simpl.
  rewrite setitem_ok by lia. simpl.
  rewrite (getitem_nth v zero) by lia. simpl.
  rewrite (getitem_nth (update u i _) zero)
    by (rewrite length_update; lia). simpl.
  rewrite nth_update_eq by lia.
  rewrite setitem_ok by lia. simpl.
  rewrite (getitem_nth (update v (i + 1) _) zero)
    by (rewrite length_update; lia). simpl.
  rewrite nth_update_neq by lia.
  rewrite setitem_ok by lia. reflexivity.
Qed.

Lemma repeat_nth (n i : nat) : (repeat zero n).[i] = zero.
Proof.
  revert i; induction n as [|n IH]; intros [|i]; simpl; auto.
Qed.

Lemma euler_inv_init n :
  euler_inv m c k Kp x_target dt n 0
    (repeat zero n) (repeat zero n) (repeat zero n).
Proof.
  split; try apply repeat_length; intros; try apply repeat_nth; lia.
Qed.

Lemma euler_inv_step n j x v u :
  (j + 1 < n)%nat -> euler_inv m c k Kp x_target dt n j x v u ->
  euler_inv m c k Kp x_target dt n (S j)
    (update x (j + 1) (x.[j] + v.[j] * dt))
    (update v (j + 1)
       (v.[j] + accel m c k x.[j] v.[j] (Kp * (x_target - x.[j])) * dt))
    (update u j (Kp * (x_target - x.[j]))).
Proof.
  intros Hj [Lx Lv Lu X0 V0 St Rx Rv Ru].
  split; try (rewrite length_update; assumption).
  - rewrite nth_update_neq by lia; assumption.
  - rewrite nth_update_neq by lia; assumption.
  - intros i Hi.
    assert (i < j \/ i = j)%nat as [Lt | ->] by lia.
    + destruct (St i Lt) as (Eu & Ev & Ex).
      rewrite !(nth_update_neq x) by lia.
      rewrite !(nth_update_neq v) by lia.
      rewrite !(nth_update_neq u) by lia.
      auto.
    + rewrite !nth_update_eq by lia.
      rewrite !nth_update_neq by lia.
      auto.
  - intros i Hi. rewrite nth_update_neq by lia. apply Rx; lia.
  - intros i Hi. rewrite nth_update_neq by lia. apply Rv; lia.
  - intros i Hi. rewrite nth_update_neq by lia. apply Ru; lia.
Qed.

(** The loop over [range(j)], [j + 1 <= n], never raises and establishes
    the invariant at [j]. *)
Lemma euler_loop n j :
  (j = 0 \/ j + 1 <= n)%nat ->
  exists x v u,
    for_each (euler_step m c k Kp x_target dt) (seq 0 j)
             (repeat zero n, repeat zero n, repeat zero n) = Ok (x, v, u)
    /\ euler_inv m c k Kp x_target dt n j x v u.
Proof.
  induction j as [|j IH]; intros Hj.
  - exists (repeat zero n), (repeat zero n), (repeat zero n).
    split; [reflexivity | apply euler_inv_init].
  - destruct IH as (x & v & u & Run & Inv); [lia|].
    rewrite seq_S, for_each_app, Run. cbn [bind for_each Nat.add].
    destruct Inv as [Lx Lv Lu X0 V0 St Rx Rv Ru].
    rewrite euler_step_ok by lia.
    do 3 eexists. split; [reflexivity|].
    apply euler_inv_step; [lia|]. now split.
Qed.

End Euler.

(** ** [simulate_bridge], for every arithmetic *)

Section Simulate.
Context {F : Type} {num : Scalar F}.
Local Open Scope scalar_scope.

Lemma np_linspace_ok (start stop : F) (n : Z) :
  (0 <= n)%Z ->
  exists t, np_linspace start stop n = Ok t /\ length t = Z.to_nat n.
Proof.
  intros Hn. unfold np_linspace.
  apply Z.ltb_ge in Hn. rewrite Hn.
  eexists; split; [reflexivity|].
  destruct (1 <? n)%Z; rewrite ?length_update;
    destruct (0 <? n - 1)%Z; try destruct (_ =? _);
    now rewrite !length_map, length_seq.
Qed.

Lemma np_zeros_ok (n : Z) :
  (0 <= n)%Z -> np_zeros n = Ok (repeat (lit 0) (Z.to_nat n)).
Proof.
  intros Hn. unfold np_zeros. now apply Z.ltb_ge in Hn; rewrite Hn.
Qed.



(** Once the step count [n_steps = int(t_max / dt)] is a non-negative
    integer, nothing in [simulate_bridge] raises, whatever the plant and
    the gain are, and the arrays satisfy the loop invariant at
    [n_steps - 1]. *)
Lemma simulate_state_run (m c k Kp x_target t_max dt q : F) (n_steps : Z) :
  py_div t_max dt = Ok q -> to_int q = Ok n_steps -> (0 <= n_steps)%Z ->
  exists t x v u,
    simulate_state m c k Kp x_target t_max dt = Ok (t, x, v, u) /\
    np_linspace (lit 0) t_max n_steps = Ok t /\
    length t = Z.to_nat n_steps /\
    euler_inv m c k Kp x_target dt
      (Z.to_nat n_steps) (Z.to_nat n_steps - 1) x v u.
Proof.
  intros Hq Hn Hpos.
  destruct (np_linspace_ok (lit 0) t_max Hpos) as (t & Ht & Lt).
  destruct (euler_loop m c k Kp x_target dt
              (n := Z.to_nat n_steps) (j := Z.to_nat n_steps - 1))
    as (x & v & u & Run & Inv); [lia|].
  exists t, x, v, u. split; [|split; [|split]]; auto.
  unfold simulate_state. rewrite Hq. cbn [bind]. rewrite Hn. cbn [bind].
  rewrite Ht. cbn [bind]. rewrite np_zeros_ok by assumption. cbn [bind].
  unfold py_range.
  replace (Z.to_nat (n_steps - 1)) with (Z.to_nat n_steps - 1)%nat by lia.
  now rewrite Run.
Qed.


(** A negative step count is refused by [np.linspace]. *)
Lemma simulate_bridge_negative_count
      (m c k Kp x_target t_max dt q : F) (n_steps : Z) :
  py_div t_max dt = Ok q -> to_int q = Ok n_steps -> (n_steps < 0)%Z ->
  simulate_bridge m c k Kp x_target t_max dt = Raise ValueError.
Proof.
  intros Hq Hn Hneg. unfold simulate_bridge, simulate_state.
  rewrite Hq. cbn [bind]. rewrite Hn. cbn [bind].
  unfold np_linspace. now apply Z.ltb_lt in Hneg; rewrite Hneg.
Qed.

Lemma simulate_bridge_of_state (m c k Kp x_target t_max dt : F) t x v u :
  simulate_state m c k Kp x_target t_max dt = Ok (t, x, v, u) ->
  simulate_bridge m c k Kp x_target t_max dt = Ok (t, x, u).
Proof. intros H. unfold simulate_bridge. now rewrite H. Qed.


End Simulate.

(** ** Exact arithmetic *)

Module ExactFacts.
Local Open Scope Q_scope.

Lemma eqb_false (a b : Q) : ~ a == b -> eqb a b = false.
Proof.
  intros H. simpl. destruct (Qeq_bool a b) eqn:E; auto.
  now apply Qeq_bool_iff in E.
Qed.

Lemma ltb_lt (a b : Q) : ltb a b = true <-> a < b.
Proof.
  simpl. unfold Exact.ltb. rewrite negb_true_iff.
  split; intros H.
  - apply Qnot_le_lt. intros L. apply Qle_bool_iff in L. congruence.
  - destruct (Qle_bool b a) eqn:E; auto.
    apply Qle_bool_iff in E. lra.
Qed.

Lemma ltb_ge (a b : Q) : ltb a b = false <-> b <= a.
Proof.
  simpl. unfold Exact.ltb. rewrite negb_false_iff. apply Qle_bool_iff.
Qed.

Lemma leb_le (a b : Q) : leb a b = true <-> a <= b.
Proof. apply Qle_bool_iff. Qed.

Lemma py_div_ok (a b : Q) : ~ b == 0 -> py_div a b = Ok (a / b).
Proof. intros H. unfold py_div. cbn [lit exact]. now rewrite eqb_false. Qed.

Lemma py_div_zero (a b : Q) : b == 0 -> py_div a b = Raise ZeroDivisionError.
Proof.
  intros H. unfold py_div. simpl.
  now apply Qeq_bool_iff in H; rewrite H.
Qed.

(** On a non-negative rational, [int()] is the floor. *)
Lemma to_int_floor (q : Q) : 0 <= q -> to_int q = Ok (Qfloor q).
Proof.
  intros H. simpl. unfold Exact.trunc. f_equal.
  destruct q as [a b]. simpl.
  apply Z.quot_div_nonneg; [|reflexivity].
  unfold Qle in H. simpl in H. lia.
Qed.


(** A valid horizon and step give at least one sample, and the step
    count the script computes is [floor(t_max / dt)]. *)
Lemma valid_step_count (m c k Kp t_max dt : Q) :
  valid_input m c k Kp t_max dt ->
  py_div t_max dt = Ok (t_max / dt) /\
  to_int (t_max / dt) = Ok (Qfloor (t_max / dt)) /\
  (1 <= Qfloor (t_max / dt))%Z.
Proof.
  intros [Hm Hc Hk HKp Ht Hdt Hlt].
  assert (1 <= t_max / dt) as Hq
    by (apply Qle_shift_div_l; [assumption | lra]).
  split; [apply py_div_ok; lra|].
  split; [apply to_int_floor; lra|].
  change 1%Z with (Qfloor 1). now apply Qfloor_resp_le.
Qed.

End ExactFacts.
Import ExactFacts.

(** ** binary64: zeros and signs

    What is used of IEEE arithmetic: the operations with a zero operand,
    which involve no rounding, and that rounding keeps the sign. *)

Module Binary64Facts.
Local Open Scope float_scope.

Lemma lit_0_binary64 : lit (F := float) 0 = 0%float.
Proof. vm_compute. reflexivity. Qed.

Lemma lit_100_binary64 : lit (F := float) 100 = 100%float.
Proof. vm_compute. reflexivity. Qed.

(** The decimal literals of the script are the doubles Python reads. *)
Lemma lit_decimals_binary64 :
  lit (F := float) 0.1 = 0x1.999999999999ap-4%float /\
  lit (F := float) 0.05 = 0x1.999999999999ap-5%float /\
  lit (F := float) 0.01 = 0x1.47ae147ae147bp-7%float /\
  lit (F := float) 0.8 = 0x1.999999999999ap-1%float.
Proof. repeat split; vm_compute; reflexivity. Qed.

Lemma zero_is_zero : is_zero 0.
Proof. now exists false. Qed.

Lemma mul_zero_l a b : is_zero a -> is_finite b -> is_zero (a * b).
Proof.
  intros [s Ha] Hb. unfold is_zero, is_finite in *.
  rewrite mul_spec, Ha. destruct (Prim2SF b); try contradiction; simpl; eauto.
Qed.

Lemma mul_zero_r a b : is_finite a -> is_zero b -> is_zero (a * b).
Proof.
  intros Ha [s Hb]. unfold is_zero, is_finite in *.
  rewrite mul_spec, Hb. destruct (Prim2SF a); try contradiction; simpl; eauto.
Qed.

Lemma sub_zero_zero a b : is_zero a -> is_zero b -> is_zero (a - b).
Proof.
  intros [s Ha] [s' Hb]. unfold is_zero.
  rewrite sub_spec, Ha, Hb. destruct s, s'; simpl; eauto.
Qed.

Lemma add_zero_zero a b : is_zero a -> is_zero b -> is_zero (a + b).
Proof.
  intros [s Ha] [s' Hb]. unfold is_zero.
  rewrite add_spec, Ha, Hb. destruct s, s'; simpl; eauto.
Qed.

Lemma div_zero_l a b :
  is_zero a -> is_finite b -> is_nonzero b -> is_zero (a / b).
Proof.
  intros [s Ha] Hb Hb'. unfold is_zero, is_finite, is_nonzero in *.
  rewrite div_spec, Ha. destruct (Prim2SF b); try contradiction; simpl; eauto.
Qed.

Lemma opp_finite a : is_finite a -> is_finite (- a).
Proof.
  unfold is_finite. rewrite opp_spec. destruct (Prim2SF a); simpl; auto.
Qed.

Lemma sub_zero_r_finite a : is_finite a -> is_finite (a - 0).
Proof.
  unfold is_finite. rewrite sub_spec.
  change (Prim2SF 0) with (S754_zero false).
  destruct (Prim2SF a) as [[|]|[|]| |[|] m e]; simpl; auto.
Qed.

Lemma add_zero_l a : is_zero a -> 0 + a = 0.
Proof.
  intros [s Ha]. apply Prim2SF_inj. rewrite add_spec, Ha.
  change (Prim2SF 0) with (S754_zero false). now destruct s.
Qed.

Lemma is_zero_eqb a : is_zero a -> PrimFloat.eqb a 0 = true.
Proof.
  intros [s Ha]. rewrite eqb_spec, Ha.
  change (Prim2SF 0) with (S754_zero false). now destruct s.
Qed.

(** *** Rounding and signs *)

Lemma shr_1_nonneg (mrs : shr_record) :
  (0 <= shr_m mrs)%Z -> (0 <= shr_m (shr_1 mrs))%Z.
Proof.
  destruct mrs as [m r s']. destruct m as [|[p|p|]|p]; simpl; lia.
Qed.

Lemma iter_shr_1_nonneg (p : positive) (mrs : shr_record) :
  (0 <= shr_m mrs)%Z -> (0 <= shr_m (iter_pos shr_1 p mrs))%Z.
Proof.
  revert mrs; induction p as [p IH|p IH|]; intros mrs H; cbn [iter_pos].
  - apply IH, IH, shr_1_nonneg, H.
  - apply IH, IH, H.
  - apply shr_1_nonneg, H.
Qed.

Lemma shr_fexp_nonneg (m e : Z) (l : location) :
  (0 <= m)%Z -> (0 <= shr_m (fst (shr_fexp prec emax m e l)))%Z.
Proof.
  intros H. unfold shr_fexp, shr.
  assert (0 <= shr_m (shr_record_of_loc m l))%Z as H0
    by (destruct l as [|[| |]]; exact H).
  destruct (fexp prec emax (Zdigits2 m + e) - e)%Z; cbn [fst]; auto.
  now apply iter_shr_1_nonneg.
Qed.

Lemma round_nearest_even_nonneg (m : Z) (l : location) :
  (0 <= m)%Z -> (0 <= round_nearest_even m l)%Z.
Proof.
  intros H. unfold round_nearest_even.
  destruct l as [|[| |]]; try destruct (IntDef.Z.even m); lia.
Qed.

(** Rounding keeps the sign: a non-negative mantissa rounds to a zero, a
    finite value or an infinity of the sign given. *)
Lemma binary_round_aux_sign (sx : bool) (mx ex : Z) (lx : location) :
  (0 <= mx)%Z ->
  match binary_round_aux prec emax sx mx ex lx with
  | S754_zero s | S754_infinity s | S754_finite s _ _ => s = sx
  | S754_nan => False
  end.
Proof.
  intros H. unfold binary_round_aux.
  pose proof (shr_fexp_nonneg ex lx H) as H1.
  destruct (shr_fexp prec emax mx ex lx) as [mrs' e']. cbn [fst] in H1.
  pose proof (round_nearest_even_nonneg (loc_of_shr_record mrs') H1) as R.
  pose proof (shr_fexp_nonneg e' loc_Exact R) as H2.
  destruct (shr_fexp prec emax _ e' loc_Exact) as [mrs'' e''].
  cbn [fst] in H2.
  destruct (shr_m mrs'') as [|p|p]; try lia; auto.
  now destruct (e'' <=? emax - prec)%Z.
Qed.

(** A product of two floats above zero is not below zero. *)
Lemma mul_pos_nonneg (a b : float) :
  PrimFloat.ltb 0 a = true -> PrimFloat.ltb 0 b = true ->
  PrimFloat.leb 0 (a * b) = true.
Proof.
  rewrite !ltb_spec, leb_spec, mul_spec.
  change (Prim2SF 0) with (S754_zero false).
  destruct (Prim2SF a) as [sa|[|]| |[|] ma ea]; try discriminate;
  destruct (Prim2SF b) as [sb|[|]| |[|] mb eb]; try discriminate;
    intros _ _; try reflexivity.
  unfold SF64mul, SFmul. cbn [xorb].
  assert (0 <= Z.pos (ma * mb))%Z as P by lia.
  pose proof (binary_round_aux_sign false (ea + eb)%Z loc_Exact P) as S.
  destruct (binary_round_aux _ _ _ _ _ _) as [s|s| |s m e];
    try contradiction; subst; reflexivity.
Qed.

Lemma nonneg_spec (f : float) :
  nonneg f <->
  match Prim2SF f with
  | S754_zero _ => True
  | S754_infinity s | S754_finite s _ _ => s = false
  | S754_nan => False
  end.
Proof.
  unfold nonneg. rewrite leb_spec.
  change (Prim2SF 0) with (S754_zero false).
  destruct (Prim2SF f) as [s|[|]| |[|] m e]; cbn; intuition congruence.
Qed.

Lemma add_nonneg (a b : float) : nonneg a -> nonneg b -> nonneg (a + b).
Proof.
  rewrite !nonneg_spec, add_spec.
  destruct (Prim2SF a) as [sa|sa| |sa ma ea]; try contradiction;
  destruct (Prim2SF b) as [sb|sb| |sb mb eb]; try contradiction;
    intros Ha Hb; subst; cbn; auto.
  - now destruct sa, sb.
  - unfold SF64add, SFadd. cbn [cond_Zopp].
    set (ez := IntDef.Z.min ea eb).
    destruct (shl_align ma ea ez) as [pa ea'].
    destruct (shl_align mb eb ez) as [pb eb'].
    cbn [fst]. unfold binary_normalize, binary_round.
    change (Z.pos pa + Z.pos pb)%Z with (Z.pos (pa + pb)).
    destruct (shl_align (pa + pb) ez _) as [mz ez'].
    assert (0 <= Z.pos mz)%Z as P by lia.
    pose proof (binary_round_aux_sign false ez' loc_Exact P) as S.
    destruct (binary_round_aux _ _ _ _ _ _); auto.
Qed.

Lemma abs_nonneg (a : float) : PrimFloat.eqb a a = true -> nonneg (abs a).
Proof.
  rewrite nonneg_spec, eqb_spec, abs_spec.
  destruct (Prim2SF a) as [sa|sa| |sa ma ea]; cbn; auto. discriminate.
Qed.

Lemma mul_nonneg (a b : float) :
  nonneg a -> PrimFloat.ltb 0 b = true -> is_finite b -> nonneg (a * b).
Proof.
  unfold is_finite. rewrite !nonneg_spec, ltb_spec, mul_spec.
  change (Prim2SF 0) with (S754_zero false).
  destruct (Prim2SF a) as [sa|sa| |sa ma ea]; try contradiction;
  destruct (Prim2SF b) as [sb|[|]| |[|] mb eb];
    try discriminate; try contradiction;
    intros Ha _ _; subst; cbn; auto.
  assert (0 <= Z.pos (ma * mb))%Z as P by lia.
  pose proof (binary_round_aux_sign false (ea + eb)%Z loc_Exact P) as S.
  unfold SF64mul, SFmul. cbn [xorb].
  destruct (binary_round_aux _ _ _ _ _ _); auto.
Qed.

Lemma add_nan_l (a b : float) : is_nan a -> is_nan (a + b).
Proof. unfold is_nan. intros H. now rewrite add_spec, H. Qed.

Lemma add_nan_r (a b : float) : is_nan b -> is_nan (a + b).
Proof.
  unfold is_nan. intros H. rewrite add_spec, H.
  now destruct (Prim2SF a).
Qed.

(** *** Quotients and [int()] *)





Lemma add_zero_r (a : float) : unsigned a -> a + 0 = a.
Proof.
  unfold unsigned. intros H.
  apply Prim2SF_inj. rewrite add_spec.
  change (Prim2SF 0) with (S754_zero false).
  destruct (Prim2SF a) as [s|s| |s m e]; subst; reflexivity.
Qed.

Lemma positive_spec (a : float) :
  PrimFloat.ltb 0 a = true <->
  match Prim2SF a with
  | S754_infinity s | S754_finite s _ _ => s = false
  | _ => False
  end.
Proof.
  rewrite ltb_spec. change (Prim2SF 0) with (S754_zero false).
  destruct (Prim2SF a) as [s|[|]| |[|] m e]; cbn; intuition congruence.
Qed.




Lemma mul_unsigned (a b : float) : unsigned a -> unsigned b -> unsigned (a * b).
Proof.
  unfold unsigned. rewrite mul_spec.
  destruct (Prim2SF a) as [sa|sa| |sa ma ea];
  destruct (Prim2SF b) as [sb|sb| |sb mb eb];
    intros Ha Hb; subst; cbn; auto.
  unfold SF64mul, SFmul. cbn [xorb].
  assert (0 <= Z.pos (ma * mb))%Z as P by lia.
  pose proof (binary_round_aux_sign false (ea + eb)%Z loc_Exact P) as S.
  destruct (binary_round_aux _ _ _ _ _ _); auto.
Qed.





End Binary64Facts.
Import Binary64Facts.

(** ** The pairwise summation of [np.sum], for every arithmetic *)

Section PairwiseFacts.
Context {F : Type} {num : Scalar F}.
Local Open Scope scalar_scope.

Lemma pairwise_sum_eq (a : list F) :
  pairwise_sum a =
  if (length a <=? 128)%nat then pairwise_block a
  else pairwise_sum (firstn (split_point (length a)) a)
       + pairwise_sum (skipn (split_point (length a)) a).
Proof.
  rewrite pairwise_sum_equation_1.
  destruct (le_lt_dec (length a) 128) as [H | H]; cbn.
  - apply Nat.leb_le in H. now rewrite H.
  - apply Nat.leb_gt in H. now rewrite H.
Qed.

(** Induction along the recursion of [pairwise_sum]. *)
Lemma pairwise_sum_cases (P : list F -> F -> Prop) :
  (forall a, (length a <= 128)%nat -> P a (pairwise_block a)) ->
  (forall a p q,
      (128 < length a)%nat ->
      P (firstn (split_point (length a)) a) p ->
      P (skipn (split_point (length a)) a) q ->
      P a (p + q)) ->
  forall a, P a (pairwise_sum a).
Proof.
  intros Hb Hs a.
  induction a as [a IH] using (induction_ltof1 _ (@length F)).
  unfold ltof in IH.
  rewrite pairwise_sum_eq.
  destruct (Nat.leb_spec (length a) 128) as [H | H].
  - now apply Hb.
  - assert (64 <= length a / 2)%nat by (apply Nat.div_le_lower_bound; lia).
    pose proof (Nat.mod_upper_bound (length a / 2) 8).
    pose proof (Nat.div_lt (length a) 2).
    apply Hs; [assumption | apply IH | apply IH].
    + rewrite length_firstn. unfold split_point. lia.
    + rewrite length_skipn. unfold split_point. lia.
Qed.

(** Induction along the unrolled loop. *)
Lemma pairwise_unrolled_cases (P : lanes -> list F -> lanes * list F -> Prop) :
  (forall r a, (length a < 8)%nat -> P r a (r, a)) ->
  (forall r0 r1 r2 r3 r4 r5 r6 r7 a0 a1 a2 a3 a4 a5 a6 a7 rest res,
      P (r0 + a0, r1 + a1, r2 + a2, r3 + a3,
         r4 + a4, r5 + a5, r6 + a6, r7 + a7) rest res ->
      P (r0, r1, r2, r3, r4, r5, r6, r7)
        (a0 :: a1 :: a2 :: a3 :: a4 :: a5 :: a6 :: a7 :: rest) res) ->
  forall r a, P r a (pairwise_unrolled r a).
Proof.
  intros Hs Hb r a. revert r.
  induction a as [a IH] using (induction_ltof1 _ (@length F)).
  unfold ltof in IH. intros r.
  destruct a as [|a0 [|a1 [|a2 [|a3 [|a4 [|a5 [|a6 [|a7 rest]]]]]]]];
    try (apply Hs; simpl; lia).
  destruct r as [[[[[[[r0 r1] r2] r3] r4] r5] r6] r7].
  cbn [pairwise_unrolled]. apply Hb, IH. simpl. lia.
Qed.

Lemma pairwise_block_cases (P : list F -> F -> Prop) :
  (forall a, (length a < 8)%nat -> P a (fold_left add a (- lit 0))) ->
  (forall a0 a1 a2 a3 a4 a5 a6 a7 rest,
      P (a0 :: a1 :: a2 :: a3 :: a4 :: a5 :: a6 :: a7 :: rest)
        (let '(r, tail) :=
           pairwise_unrolled (a0, a1, a2, a3, a4, a5, a6, a7) rest in
         fold_left add tail (lanes_sum r))) ->
  forall a, P a (pairwise_block a).
Proof.
  intros Hs Hb a.
  destruct a as [|a0 [|a1 [|a2 [|a3 [|a4 [|a5 [|a6 [|a7 rest]]]]]]]];
    try (apply Hs; simpl; lia).
  apply Hb.
Qed.

(** A property of the seed [-0.0] and of every sample that addition
    preserves holds of the sum. *)
Section Closed.
Variable P : F -> Prop.
Hypothesis P_add : forall a b, P a -> P b -> P (a + b).

Lemma fold_add_closed (l : list F) (acc : F) :
  P acc -> Forall P l -> P (fold_left add l acc).
Proof.
  revert acc; induction l as [|a l IH]; intros acc Hacc Hl; cbn [fold_left].
  - exact Hacc.
  - inversion Hl; subst. apply IH; auto.
Qed.

Lemma lanes_sum_closed (r : lanes) : Forall P (lanes_list r) -> P (lanes_sum r).
Proof.
  destruct r as [[[[[[[r0 r1] r2] r3] r4] r5] r6] r7]. cbn.
  intros H. repeat (apply Forall_cons_iff in H; destruct H as [? H]).
  auto.
Qed.

Lemma pairwise_unrolled_closed (r : lanes) (a : list F) :
  Forall P (lanes_list r) -> Forall P a ->
  Forall P (lanes_list (fst (pairwise_unrolled r a))) /\
  Forall P (snd (pairwise_unrolled r a)).
Proof.
  apply (pairwise_unrolled_cases
           (fun r a res => Forall P (lanes_list r) -> Forall P a ->
              Forall P (lanes_list (fst res)) /\ Forall P (snd res))).
  - auto.
  - intros r0 r1 r2 r3 r4 r5 r6 r7 a0 a1 a2 a3 a4 a5 a6 a7 rest res IH Hr Ha.
    cbn [lanes_list] in Hr.
    repeat (apply Forall_cons_iff in Hr; destruct Hr as [? Hr]).
    repeat (apply Forall_cons_iff in Ha; destruct Ha as [? Ha]).
    apply IH; [|assumption].
    cbn [lanes_list]. repeat constructor; auto.
Qed.

Lemma pairwise_block_closed (a : list F) :
  P (- lit 0) -> Forall P a -> P (pairwise_block a).
Proof.
  intros Hz. apply (pairwise_block_cases (fun a s => Forall P a -> P s)).
  - intros l _ Hl. now apply fold_add_closed.
  - intros a0 a1 a2 a3 a4 a5 a6 a7 rest Ha.
    repeat (apply Forall_cons_iff in Ha; destruct Ha as [? Ha]).
    destruct (pairwise_unrolled_closed
                (a0, a1, a2, a3, a4, a5, a6, a7) (a := rest)) as (Hr & Ht);
      [cbn [lanes_list]; repeat constructor; auto | assumption |].
    destruct (pairwise_unrolled _ rest) as [r tail]. cbn [fst snd] in *.
    apply fold_add_closed; [now apply lanes_sum_closed | assumption].
Qed.

Lemma pairwise_sum_closed (a : list F) :
  P (- lit 0) -> Forall P a -> P (pairwise_sum a).
Proof.
  intros Hz. apply (pairwise_sum_cases (fun a s => Forall P a -> P s)).
  - intros l _. now apply pairwise_block_closed.
  - intros l p q _ IHp IHq Hl.
    rewrite <- (firstn_skipn (split_point (length l)) l) in Hl.
    apply Forall_app in Hl. destruct Hl. auto.
Qed.

Lemma np_sum_closed (a : list F) :
  P (lit 0) -> P (- lit 0) -> Forall P a -> P (np_sum a).
Proof.
  intros H0 Hz Ha. unfold np_sum. apply P_add; [assumption|].
  now apply pairwise_sum_closed.
Qed.

End Closed.

(** A property that addition takes over from either operand (being NaN)
    holds of the sum as soon as it holds of one sample. *)
Section Absorbing.
Variable N : F -> Prop.
Hypothesis N_add_l : forall a b, N a -> N (a + b).
Hypothesis N_add_r : forall a b, N b -> N (a + b).

Lemma fold_add_absorbs (l : list F) (acc : F) :
  N acc \/ Exists N l -> N (fold_left add l acc).
Proof.
  revert acc; induction l as [|a l IH]; intros acc H; cbn [fold_left].
  - destruct H as [H | H]; [exact H | inversion H].
  - apply IH. destruct H as [H | H]; [left; auto|].
    inversion H; subst; [left; auto | now right].
Qed.

Lemma lanes_sum_absorbs (r : lanes) : Exists N (lanes_list r) -> N (lanes_sum r).
Proof.
  destruct r as [[[[[[[r0 r1] r2] r3] r4] r5] r6] r7]. cbn.
  intros H.
  repeat (apply Exists_cons in H; destruct H as [H | H]; [now auto 6|]).
  inversion H.
Qed.

Lemma pairwise_unrolled_absorbs (r : lanes) (a : list F) :
  Exists N (lanes_list r) \/ Exists N a ->
  Exists N (lanes_list (fst (pairwise_unrolled r a))) \/
  Exists N (snd (pairwise_unrolled r a)).
Proof.
  apply (pairwise_unrolled_cases
           (fun r a res => Exists N (lanes_list r) \/ Exists N a ->
              Exists N (lanes_list (fst res)) \/ Exists N (snd res))).
  - auto.
  - intros r0 r1 r2 r3 r4 r5 r6 r7 a0 a1 a2 a3 a4 a5 a6 a7 rest res IH H.
    apply IH. cbn [lanes_list] in *.
    destruct H as [H | H].
    + left.
      repeat (apply Exists_cons in H; destruct H as [H | H];
              [repeat (first [apply Exists_cons_hd; now apply N_add_l
                             | apply Exists_cons_tl])|]).
      inversion H.
    + do 8 (apply Exists_cons in H; destruct H as [H | H];
              [left;
               repeat (first [apply Exists_cons_hd; now apply N_add_r
                             | apply Exists_cons_tl])|]).
      now right.
Qed.

Lemma pairwise_block_absorbs (a : list F) :
  Exists N a -> N (pairwise_block a).
Proof.
  apply (pairwise_block_cases (fun a s => Exists N a -> N s)).
  - intros l _ Hl. apply fold_add_absorbs. now right.
  - intros a0 a1 a2 a3 a4 a5 a6 a7 rest Ha.
    pose proof (pairwise_unrolled_absorbs
                  (a0, a1, a2, a3, a4, a5, a6, a7) (a := rest)) as H.
    destruct (pairwise_unrolled _ rest) as [r tail]. cbn [fst snd] in H.
    apply fold_add_absorbs.
    destruct H as [H | H]; [|left; now apply lanes_sum_absorbs|now right].
    cbn [lanes_list].
    do 8 (apply Exists_cons in Ha; destruct Ha as [Ha | Ha];
          [left; repeat (first [apply Exists_cons_hd; exact Ha
                               | apply Exists_cons_tl])|]).
    now right.
Qed.

Lemma pairwise_sum_absorbs (a : list F) : Exists N a -> N (pairwise_sum a).
Proof.
  apply (pairwise_sum_cases (fun a s => Exists N a -> N s)).
  - intros l _. apply pairwise_block_absorbs.
  - intros l p q _ IHp IHq Hl.
    rewrite <- (firstn_skipn (split_point (length l)) l) in Hl.
    apply Exists_app in Hl. destruct Hl; auto.
Qed.

Lemma np_sum_absorbs (a : list F) : Exists N a -> N (np_sum a).
Proof. intros H. unfold np_sum. now apply N_add_r, pairwise_sum_absorbs. Qed.

End Absorbing.

End PairwiseFacts.

(** ** The pairwise summation without rounding *)

Section ExactSum.
Local Open Scope Q_scope.
Local Abbreviation total := (fold_right Qplus 0).

Lemma fold_left_total (l : list Q) (acc : Q) :
  fold_left Qplus l acc == acc + total l.
Proof.
  revert acc; induction l as [|a l IH]; intros acc; cbn [fold_left fold_right].
  - ring.
  - rewrite IH. ring.
Qed.

Lemma total_app (p q : list Q) : total (p ++ q) == total p + total q.
Proof.
  induction p as [|a p IH]; cbn [app fold_right]; [ring|].
  rewrite IH. ring.
Qed.

Lemma pairwise_unrolled_exact (r : lanes) (a : list Q) :
  total (lanes_list (fst (pairwise_unrolled r a)))
  + total (snd (pairwise_unrolled r a))
  == total (lanes_list r) + total a.
Proof.
  apply (pairwise_unrolled_cases
           (fun r a res =>
              total (lanes_list (fst res)) + total (snd res)
              == total (lanes_list r) + total a)).
  - reflexivity.
  - intros r0 r1 r2 r3 r4 r5 r6 r7 a0 a1 a2 a3 a4 a5 a6 a7 rest res IH.
    rewrite IH. cbn [lanes_list fold_right add exact]. ring.
Qed.

Lemma lanes_sum_exact (r : lanes (F := Q)) :
  lanes_sum r == total (lanes_list r).
Proof.
  destruct r as [[[[[[[r0 r1] r2] r3] r4] r5] r6] r7].
  cbn [lanes_sum lanes_list fold_right add exact]. ring.
Qed.

Lemma pairwise_block_exact (a : list Q) : pairwise_block a == total a.
Proof.
  apply (pairwise_block_cases (fun a s => s == total a)).
  - intros l _. cbn [add neg lit exact]. rewrite fold_left_total. ring.
  - intros a0 a1 a2 a3 a4 a5 a6 a7 rest.
    pose proof (pairwise_unrolled_exact
                  (a0, a1, a2, a3, a4, a5, a6, a7) rest) as H.
    destruct (pairwise_unrolled _ rest) as [r tail]. cbn [fst snd] in H.
    cbn [add exact]. rewrite fold_left_total, lanes_sum_exact, H.
    cbn [lanes_list fold_right]. ring.
Qed.

(** Without rounding the pairwise sum is the sum. *)
Lemma pairwise_sum_exact (a : list Q) : pairwise_sum a == total a.
Proof.
  apply (pairwise_sum_cases (fun a s => s == total a)).
  - intros l _. apply pairwise_block_exact.
  - intros l p q _ -> ->. cbn [add exact].
    rewrite <- total_app, firstn_skipn. reflexivity.
Qed.

Lemma np_sum_exact (a : list Q) : np_sum a == total a.
Proof.
  unfold np_sum. cbn [add lit exact]. rewrite pairwise_sum_exact. ring.
Qed.
End ExactSum.

(** ** The simulator *)

Section SimulatorSpec.
Local Open Scope Q_scope.

(** A valid input on which the simulator raises, in binary64:
    [simulate_bridge(2.0, 0.8, 10.0, 10.0, 1.0, t_max=1e300, dt=1e-10)].
    The quotient [1e300 / 1e-10] overflows to [inf], and [int(inf)] raises
    OverflowError. *)
Lemma simulate_bridge_overflow_on_valid_input :
  let m : float := lit 2.0 in
  let c : float := lit 0.8 in
  let k : float := lit 10.0 in
  let Kp : float := lit 10.0 in
  let t_max : float := lit 1e300 in
  let dt : float := lit 1e-10 in
  (ltb (lit 0) m = true /\ leb (lit 0) c = true /\ ltb (lit 0) k = true /\
   leb (lit 0) Kp = true /\ ltb (lit 0) t_max = true /\
   ltb (lit 0) dt = true /\ ltb dt t_max = true) /\
  (is_finite t_max /\ is_finite dt) /\
  div t_max dt = infinity /\
  simulate_bridge m c k Kp (lit 1.0) t_max dt = Raise OverflowError.
Proof.
  cbn zeta.
  repeat match goal with |- _ /\ _ => split end;
    vm_compute; first [reflexivity | exact I].
Qed.




(** With [Kp = 0] every array of a valid run is zero up to index [j]. *)
Lemma zero_gain_prefix (m c k x_target dt : Q) (n j : nat) x v u :
  euler_inv m c k 0 x_target dt n j x v u ->
  forall i, (i <= j)%nat -> nth i x 0 == 0 /\ nth i v 0 == 0.
Proof.
  intros [Lx Lv Lu X0 V0 St Rx Rv Ru] i.
  induction i as [|i IH]; intros Hi.
  - cbn [lit exact] in X0, V0. rewrite X0, V0. split; reflexivity.
  - destruct IH as (Hx & Hv); [lia|].
    destruct (St i) as (Eu & Ev & Ex); [lia|].
    replace (S i) with (i + 1)%nat by lia.
    cbn [lit exact] in *. unfold accel in Ev.
    cbn [add sub mul div neg exact] in Eu, Ev, Ex.
    rewrite Ex, Ev, Eu, Hx, Hv. unfold Qdiv. split; ring.
Qed.

(** The run without control on a valid input, in exact arithmetic. *)
Lemma zero_gain_valid_run (m c k x_target t_max dt : Q) :
  valid_input m c k 0 t_max dt ->
  exists t x v u : list Q,
    simulate_state m c k 0 x_target t_max dt = Ok (t, x, v, u) /\
    simulate_bridge m c k 0 x_target t_max dt = Ok (t, x, u) /\
    length x = n_samples t_max dt /\
    Forall (fun a => a == 0) u /\
    Forall (fun a => a == 0) x /\
    Forall (fun a => a == 0) v.
Proof.
  intros V.
  destruct (valid_step_count V) as (Hq & Hn & Hge).
  destruct (simulate_state_run m c k 0 x_target t_max dt Hq Hn)
    as (t & x & v & u & Run & _ & Lt & Inv); [lia|].
  exists t, x, v, u.
  split; [assumption|].
  split; [now apply simulate_bridge_of_state with v|].
  pose proof (zero_gain_prefix Inv) as Z.
  destruct Inv as [Lx Lv Lu X0 V0 St Rx Rv Ru].
  split; [assumption|].
  repeat split; apply Forall_nth; intros i d Hi.
  - rewrite (nth_indep u d 0 Hi).
    assert (i < Z.to_nat (Qfloor (t_max / dt)) - 1
            \/ Z.to_nat (Qfloor (t_max / dt)) - 1 <= i)%nat
      as [Lt' | Ge] by lia.
    + destruct (St i Lt') as (Eu & _). cbn [lit exact] in Eu.
      rewrite Eu. cbn [mul exact]. ring.
    + specialize (Ru i Ge). cbn [lit exact] in Ru.
      rewrite Ru. reflexivity.
  - rewrite (nth_indep x d 0 Hi). apply Z. lia.
  - rewrite (nth_indep v d 0 Hi). apply Z. lia.
Qed.

(** The same in binary64, where [0 * y] is a zero only for a finite [y]:
    with finite plant, step and target, a non-zero mass and [Kp = 0], the
    position and the velocity stay [+0.0] and every control sample is a
    signed zero. *)
Lemma zero_gain_prefix_binary64
      (m c k x_target dt : float) (n j : nat) x v u :
  is_finite c -> is_finite k -> is_finite m -> is_nonzero m ->
  is_finite dt -> is_finite x_target ->
  euler_inv m c k 0%float x_target dt n j x v u ->
  forall i, (i <= j)%nat ->
    nth i x 0%float = 0%float /\ nth i v 0%float = 0%float.
Proof.
  intros Fc Fk Fm Nm Fdt Ft [Lx Lv Lu X0 V0 St Rx Rv Ru] i.
  rewrite lit_0_binary64 in *.
  induction i as [|i IH]; intros Hi; [now split|].
  destruct IH as (Hx & Hv); [lia|].
  destruct (St i) as (Eu & Ev & Ex); [lia|].
  replace (S i) with (i + 1)%nat by lia.
  unfold accel in Ev. cbn [add sub mul div neg binary64] in Eu, Ev, Ex.
  rewrite Hx, Hv in *.
  assert (is_zero (nth i u 0%float)) as Zu
    by (rewrite Eu; apply mul_zero_l;
        [apply zero_is_zero | now apply sub_zero_r_finite]).
  split.
  - rewrite Ex. apply add_zero_l, mul_zero_l; [apply zero_is_zero | exact Fdt].
  - rewrite Ev. apply add_zero_l, mul_zero_l; [|exact Fdt].
    apply div_zero_l; [|exact Fm|exact Nm].
    apply add_zero_zero; [|exact Zu].
    apply sub_zero_zero; apply mul_zero_r;
      solve [now apply opp_finite | exact Fk | apply zero_is_zero].
Qed.

(** The run without control in binary64. *)
Lemma zero_gain_run_binary64
      (m c k x_target t_max dt q : float) (n_steps : Z) :
  is_finite c -> is_finite k -> is_finite m -> is_nonzero m ->
  is_finite dt -> is_finite x_target ->
  py_div t_max dt = Ok q -> to_int q = Ok n_steps -> (0 <= n_steps)%Z ->
  exists t x v u : list float,
    simulate_state m c k 0%float x_target t_max dt = Ok (t, x, v, u) /\
    length x = Z.to_nat n_steps /\
    Forall is_zero u /\
    Forall (fun a => a = 0%float) x /\
    Forall (fun a => a = 0%float) v.
Proof.
  intros Fc Fk Fm Nm Fdt Ft Hq Hn Hpos.
  destruct (simulate_state_run m c k 0%float x_target t_max dt Hq Hn Hpos)
    as (t & x & v & u & Run & _ & Lt & Inv).
  exists t, x, v, u. split; [assumption|].
  pose proof (zero_gain_prefix_binary64 Fc Fk Fm Nm Fdt Ft Inv) as Z.
  destruct Inv as [Lx Lv Lu X0 V0 St Rx Rv Ru].
  rewrite lit_0_binary64 in *.
  split; [assumption|].
  repeat split; apply Forall_nth; intros i d Hi.
  - rewrite (nth_indep u d 0%float Hi).
    assert (i < Z.to_nat n_steps - 1 \/ Z.to_nat n_steps - 1 <= i)%nat
      as [Lt' | Ge] by lia.
    + destruct (St i Lt') as (Eu & _). rewrite Eu.
      cbn [mul sub binary64]. destruct (Z i) as (-> & _); [lia|].
      apply mul_zero_l; [apply zero_is_zero | now apply sub_zero_r_finite].
    + rewrite (Ru i Ge). apply zero_is_zero.
  - rewrite (nth_indep x d 0%float Hi). apply Z. lia.
  - rewrite (nth_indep v d 0%float Hi). apply Z. lia.
Qed.

(** X5.  In binary64, with finite plant, step and target, a non-zero mass and
    [Kp = 0], every run that returns leaves the position and the velocity
    at [+0.0] and every control sample at a signed zero. *)
Lemma zero_gain_stays_at_rest_binary64
      (m c k x_target t_max dt q : float) (n_steps : Z) :
  is_finite c -> is_finite k -> is_finite m -> is_nonzero m ->
  is_finite dt -> is_finite x_target ->
  py_div t_max dt = Ok q -> to_int q = Ok n_steps -> (0 <= n_steps)%Z ->
  exists t x v u : list float,
    simulate_state m c k 0%float x_target t_max dt = Ok (t, x, v, u) /\
    length x = Z.to_nat n_steps /\
    Forall is_zero u /\
    Forall (fun a => a = 0%float) x /\
    Forall (fun a => a = 0%float) v.
Proof. exact (@zero_gain_run_binary64 m c k x_target t_max dt q n_steps). Qed.

(** Without control and with an infinite target, in binary64:
    [simulate_bridge(2.0, 0.8, 10.0, 0.0, inf, t_max=1.0, dt=0.25)].  The
    first control sample is [0.0 * (inf - 0.0)], which is NaN and not zero,
    and from index 2 on the position is NaN. *)
Lemma zero_gain_infinite_target :
  exists t : list float,
    simulate_bridge (lit 2.0) (lit 0.8) (lit 10.0) (lit 0.0) infinity
      (lit 1.0) (lit 0.25)
    = Ok (t, [0; 0; nan; nan]%float, [nan; nan; nan; 0]%float)
    /\ PrimFloat.eqb nan 0 = false.
Proof. eexists. split; vm_compute; reflexivity. Qed.

(** C9, as the code has it.  With [Kp = 0] a run started at rest never
    leaves the unforced equilibrium, for every finite target.
    - In binary64, with finite damping, stiffness, step and target and a
      finite non-zero mass, every run whose step count is computed
      returns, every control sample [u[i]] is a zero ([u[i] == 0]; its
      sign is that of [0.0 * x_target]), and the position and the
      velocity are [+0.0] at every index.
    - In exact arithmetic the same holds of every valid input and every
      target.
    An infinite or NaN target makes [u[0] = 0.0 * (x_target - 0.0)] NaN. *)
Theorem zero_gain_stays_at_rest :
  (forall (m c k x_target t_max dt q : float) (n_steps : Z),
      is_finite c -> is_finite k -> is_finite m -> is_nonzero m ->
      is_finite dt -> is_finite x_target ->
      py_div t_max dt = Ok q -> to_int q = Ok n_steps -> (0 <= n_steps)%Z ->
      exists t x v u : list float,
        simulate_state m c k 0%float x_target t_max dt = Ok (t, x, v, u) /\
        simulate_bridge m c k 0%float x_target t_max dt = Ok (t, x, u) /\
        length x = Z.to_nat n_steps /\
        length u = Z.to_nat n_steps /\
        Forall (fun a => PrimFloat.eqb a 0 = true) u /\
        Forall (fun a => a = 0%float) x /\
        Forall (fun a => a = 0%float) v) /\
  (forall m c k x_target t_max dt : Q,
      valid_input m c k 0 t_max dt ->
      exists t x v u : list Q,
        simulate_state m c k 0 x_target t_max dt = Ok (t, x, v, u) /\
        simulate_bridge m c k 0 x_target t_max dt = Ok (t, x, u) /\
        length x = n_samples t_max dt /\
        Forall (fun a => a == 0) u /\
        Forall (fun a => a == 0) x /\
        Forall (fun a => a == 0) v).
Proof.
  split.
  - intros m c k x_target t_max dt q n_steps Fc Fk Fm Nm Fdt Ft Hq Hn Hpos.
    destruct (@zero_gain_run_binary64 m c k x_target t_max dt q n_steps
                Fc Fk Fm Nm Fdt Ft Hq Hn Hpos)
      as (t & x & v & u & Run & Lx & Zu & Zx & Zv).
    destruct (simulate_state_run m c k 0%float x_target t_max dt Hq Hn Hpos)
      as (t' & x' & v' & u' & Run' & _ & _ & Inv).
    rewrite Run in Run'. injection Run' as <- <- <- <-.
    exists t, x, v, u.
    split; [assumption|].
    split; [now apply simulate_bridge_of_state with v|].
    split; [assumption|]. split; [apply Inv|].
    split; [|now split].
    revert Zu. apply Forall_impl. exact is_zero_eqb.
  - intros m c k x_target t_max dt V. now apply zero_gain_valid_run.
Qed.

Lemma zero_gain_stays_at_rest_witness :
  (exists t x v u : list float,
     simulate_state (lit 2.0) (lit 0.8) (lit 10.0) 0%float (lit (-1.0))
       (lit 15.0) (lit 0.01) = Ok (t, x, v, u) /\
     simulate_bridge (lit 2.0) (lit 0.8) (lit 10.0) 0%float (lit (-1.0))
       (lit 15.0) (lit 0.01) = Ok (t, x, u) /\
     length x = 1500%nat /\
     length u = 1500%nat /\
     Forall (fun a => PrimFloat.eqb a 0 = true) u /\
     Forall (fun a => a = 0%float) x /\
     Forall (fun a => a = 0%float) v) /\
  (exists t x v u : list Q,
     simulate_state 2 0.8 10 0 1 15.0 0.01 = Ok (t, x, v, u) /\
     simulate_bridge 2 0.8 10 0 1 15.0 0.01 = Ok (t, x, u) /\
     length x = n_samples 15.0 0.01 /\
     Forall (fun a => a == 0) u /\
     Forall (fun a => a == 0) x /\
     Forall (fun a => a == 0) v).
Proof.
  destruct zero_gain_stays_at_rest as (H1 & H2).
  split.
  - apply (H1 (lit 2.0) (lit 0.8) (lit 10.0) (lit (-1.0))
             (lit 15.0) (lit 0.01) 1500%float 1500%Z);
      try (vm_compute; exact I); try (vm_compute; reflexivity).
    lia.
  - apply (H2 2 0.8 10 1 15.0 0.01).
    split; reflexivity || (intros H; discriminate H).
Defined.

(** *** The time grid *)

Lemma nth_arange (f : Q -> Q) (n i : nat) :
  (i < n)%nat ->
  nth i (map f (map (fun j => inject_Z (Z.of_nat j)) (seq 0 n))) 0
  = f (inject_Z (Z.of_nat i)).
Proof.
  intros Hi.
  rewrite (nth_indep _ 0 (f (inject_Z (Z.of_nat 0))))
    by now rewrite !length_map, length_seq.
  rewrite (map_nth f), (map_nth (fun j => inject_Z (Z.of_nat j))).
  now rewrite seq_nth.
Qed.

Lemma inject_Z_pos (z : Z) : (0 < z)%Z -> 0 < inject_Z z.
Proof. intros H. rewrite Zlt_Qlt in H. exact H. Qed.

(** In exact arithmetic [np.linspace(0, t_max, n)] is the grid
    [i * t_max/(n-1)]. *)
Lemma linspace_grid (t_max : Q) (n : Z) (t : list Q) :
  0 < t_max -> (1 <= n)%Z ->
  np_linspace (lit 0) t_max n = Ok t ->
  forall i, (i < Z.to_nat n)%nat ->
    nth i t 0 == inject_Z (Z.of_nat i) * (t_max / inject_Z (n - 1)).
Proof.
  intros Ht Hn Run i Hi. unfold np_linspace in Run.
  replace (n <? 0)%Z with false in Run by (symmetry; apply Z.ltb_ge; lia).
  cbn [lit exact add sub mul div of_int eqb] in Run.
  destruct (Z.ltb_spec 0 (n - 1)) as [Hdv | Hdv].
  - pose proof (inject_Z_pos Hdv) as Hpos.
    assert (~ (t_max - 0) / inject_Z (n - 1) == 0) as Hstep.
    { assert (0 < (t_max - 0) / inject_Z (n - 1)) as P
        by (apply Qlt_shift_div_l; [assumption | lra]).
      intros E. rewrite E in P. discriminate P. }
    destruct (Qeq_bool ((t_max - 0) / inject_Z (n - 1)) 0) eqn:E;
      [apply Qeq_bool_iff in E; contradiction|].
    replace (1 <? n)%Z with true in Run by (symmetry; apply Z.ltb_lt; lia).
    injection Run as <-.
    assert (i = Z.to_nat n - 1 \/ i < Z.to_nat n - 1)%nat as [-> | Lt] by lia.
    + rewrite nth_update_eq by (rewrite !length_map, length_seq; lia).
      replace (Z.of_nat (Z.to_nat n - 1)) with (n - 1)%Z by lia.
      field. lra.
    + rewrite nth_update_neq by lia.
      rewrite (map_map _ (fun a => a + 0)).
      rewrite nth_arange by lia. field. lra.
  - assert (n = 1)%Z as -> by lia.
    assert (i = 0)%nat as -> by (simpl in Hi; lia).
    cbn in Run. injection Run as <-. cbn [nth].
    change (Z.of_nat 0) with 0%Z. ring.
Qed.



(** A valid horizon and step in binary64:
    [simulate_bridge(2.0, 0.8, 10.0, 10.0, 1.0, t_max=0.3, dt=0.1)].  The
    real quotient of [0.3] by [0.1] is 3, which gives three stamps
    [0, 0.15, 0.3]; the script computes [0.3 / 0.1 = 2.9999999999999996],
    so [int()] gives [n = 2] and the grid has the two stamps [0, 0.3]. *)
Lemma time_grid_of_two_stamps :
  (PrimFloat.ltb 0 (lit 0.1) = true /\
   PrimFloat.ltb (lit 0.1) (lit 0.3) = true) /\
  Qfloor (0.3 / 0.1) = 3%Z /\
  to_int (PrimFloat.div (lit 0.3) (lit 0.1)) = Ok 2%Z /\
  simulate_bridge (F := float) (lit 2.0) (lit 0.8) (lit 10.0) (lit 10.0)
    (lit 1.0) (lit 0.3) (lit 0.1)
  = Ok ([0%float; lit 0.3], [0; 0]%float, [10; 0]%float).
Proof.
  repeat match goal with |- _ /\ _ => split end; vm_compute; reflexivity.
Qed.



(** *** Inputs outside the contract *)

(** A zero mass in binary64: the division yields infinities and NaN, and
    the call still returns. *)
Lemma simulate_bridge_zero_mass_binary64 :
  exists t : list float,
    simulate_bridge (F := float)
      (lit 0) (lit 0.8) (lit 10) (lit 10) (lit 1) (lit 1) (lit 0.25)
    = Ok (t, [0; 0; infinity; nan]%float, [10; 10; neg_infinity; 0]%float).
Proof. eexists. vm_compute. reflexivity. Qed.






End SimulatorSpec.

(** ** The metrics, for every arithmetic *)

Section Metrics.
Context {F : Type} {num : Scalar F}.
Local Open Scope scalar_scope.

Local Abbreviation zero := (lit 0).

Lemma py_range_down_S (hi : nat) :
  py_range_down (Z.of_nat (S hi)) = S hi :: py_range_down (Z.of_nat hi).
Proof.
  unfold py_range_down. rewrite !Nat2Z.id.
  now rewrite seq_S, rev_app_distr.
Qed.

Lemma settle_scan_cons x_arr t_arr target tol i rest d :
  (i < length x_arr)%nat ->
  settle_scan x_arr t_arr target tol (i :: rest) d =
  if exceeds x_arr target tol i then getitem t_arr i
  else settle_scan x_arr t_arr target tol rest d.
Proof.
  intros Hi. cbn [settle_scan].
  now rewrite (getitem_nth x_arr zero Hi).
Qed.

(** No index from [hi] down to [1] leaves the band: the default stays. *)
Lemma settle_scan_default x_arr t_arr target tol d (hi : nat) :
  (hi < length x_arr)%nat ->
  (forall i, (1 <= i <= hi)%nat -> exceeds x_arr target tol i = false) ->
  settle_scan x_arr t_arr target tol (py_range_down (Z.of_nat hi)) d = Ok d.
Proof.
  induction hi as [|hi IH]; intros Hx Hin; [reflexivity|].
  rewrite py_range_down_S, settle_scan_cons by assumption.
  rewrite Hin by lia. apply IH; [lia | intros; apply Hin; lia].
Qed.

(** Index [i >= 1] leaves the band and none above it does: its time is
    reported. *)
Lemma settle_scan_last x_arr t_arr target tol d (hi i : nat) :
  (hi < length x_arr)%nat -> (1 <= i <= hi)%nat ->
  exceeds x_arr target tol i = true ->
  (forall j, (i < j <= hi)%nat -> exceeds x_arr target tol j = false) ->
  settle_scan x_arr t_arr target tol (py_range_down (Z.of_nat hi)) d
  = getitem t_arr i.
Proof.
  induction hi as [|hi IH]; intros Hx Hi Hex Habove; [lia|].
  rewrite py_range_down_S, settle_scan_cons by assumption.
  assert (i = S hi \/ i <= hi)%nat as [-> | Le] by lia.
  - now rewrite Hex.
  - rewrite Habove by lia. apply IH; try lia; auto.
    intros; apply Habove; lia.
Qed.

(** The scan never raises when the time base is as long as the trajectory,
    and it reports the default or one of the time stamps. *)
Lemma settle_scan_ok x_arr t_arr target tol d (hi : nat) :
  (hi < length x_arr)%nat -> (hi < length t_arr)%nat ->
  exists ts,
    settle_scan x_arr t_arr target tol (py_range_down (Z.of_nat hi)) d = Ok ts
    /\ (ts = d \/ In ts t_arr).
Proof.
  induction hi as [|hi IH]; intros Hx Ht.
  - exists d. split; [reflexivity | now left].
  - rewrite py_range_down_S, settle_scan_cons by assumption.
    destruct (exceeds x_arr target tol (S hi)).
    + exists (nth (S hi) t_arr zero).
      split; [now apply getitem_nth | right; now apply nth_In].
    + apply IH; lia.
Qed.

Lemma np_max_ok (h : F) (tl : list F) :
  np_max (h :: tl) = Ok (fold_left np_maximum tl h).
Proof. reflexivity. Qed.

(** [get_metrics] on a non-empty trajectory with a time base of the same
    length returns, for every target: no branch of it raises. *)
Lemma get_metrics_ok (x_arr t_arr : list F) (target : F) :
  x_arr <> [] -> length t_arr = length x_arr ->
  exists max_val ts,
    np_max x_arr = Ok max_val /\
    get_metrics x_arr t_arr target =
      Ok (py_max zero ((max_val - target) / target) * lit 100, ts) /\
    In ts t_arr.
Proof.
  intros Hx Hlen.
  destruct x_arr as [|h tl]; [congruence|].
  assert (t_arr <> []) as Ht by (destruct t_arr; [discriminate|congruence]).
  destruct (settle_scan_ok (h :: tl) t_arr target (lit 0.05 * target)
              (nth (length t_arr - 1) t_arr zero) (hi := length tl))
    as (ts & Scan & Hts); [simpl; lia | simpl in Hlen; lia |].
  exists (fold_left np_maximum tl h), ts.
  split; [reflexivity|]. split.
  - unfold get_metrics. rewrite np_max_ok. cbn [bind].
    rewrite (getitem_last_nth zero Ht). cbn [bind].
    replace (Z.of_nat (length (h :: tl)) - 1)%Z with (Z.of_nat (length tl))
      by (simpl length; lia).
    now rewrite Scan.
  - destruct Hts as [-> | Hin]; [|assumption].
    apply nth_In. destruct t_arr; [congruence | simpl; lia].
Qed.

End Metrics.

(** ** The metrics analyzer *)

Section MetricsSpec.
Local Open Scope Q_scope.

(** *** Settling time *)

(** C2.  The claim has the backward scan cover the whole trajectory, index
    0 included.  The script's loop is [range(len(x_arr)-1, 0, -1)], which
    stops before index 0.  On [x = [0, 1]], [t = [0, 1]], [target = 1] the
    only sample outside the band [0.05 * target] is [x[0]], so the claimed
    settling time is [t[0] = 0]; [get_metrics] never looks at it and
    returns the default [t[-1] = 1], in binary64 and in exact arithmetic
    alike. *)
Theorem get_metrics_skips_first_sample :
  (let x : list float := [lit 0; lit 1] in
   let t : list float := [lit 0; lit 1] in
   let target : float := lit 1 in
   exceeds x target (mul (lit 0.05) target) 0 = true /\
   exceeds x target (mul (lit 0.05) target) 1 = false /\
   get_metrics x t target = Ok (0%float, 1%float)) /\
  (let x : list Q := [0; 1] in
   let t : list Q := [0; 1] in
   let target : Q := 1 in
   exceeds x target (0.05 * target) 0 = true /\
   exceeds x target (0.05 * target) 1 = false /\
   exists os : Q, get_metrics x t target = Ok (os, 1) /\ os == 0).
Proof.
  cbn zeta. repeat split; try (vm_compute; reflexivity).
  eexists; split; vm_compute; reflexivity.
Qed.

(** X1.  What the scan does report: the time of the last index [i >= 1]
    outside
    the band, and [t[-1]] when no index [i >= 1] is outside it. *)
Lemma get_metrics_settling_time {F : Type} {num : Scalar F}
      (x_arr t_arr : list F) (target : F) :
  x_arr <> [] -> length t_arr = length x_arr ->
  let tol := mul (lit 0.05) target in
  let last := (length x_arr - 1)%nat in
  exists os,
    (forall i, (1 <= i <= last)%nat ->
       exceeds x_arr target tol i = true ->
       (forall j, (i < j <= last)%nat -> exceeds x_arr target tol j = false) ->
       get_metrics x_arr t_arr target = Ok (os, nth i t_arr (lit 0))) /\
    ((forall i, (1 <= i <= last)%nat -> exceeds x_arr target tol i = false) ->
       get_metrics x_arr t_arr target = Ok (os, nth last t_arr (lit 0))).
Proof.
  intros Hx Hlen tol last.
  destruct x_arr as [|h tl]; [congruence|].
  assert (t_arr <> []) as Ht by (destruct t_arr; [discriminate|congruence]).
  assert (last = length tl) as El by (unfold last; simpl; lia).
  assert (forall d,
    get_metrics (h :: tl) t_arr target =
    (ts <- settle_scan (h :: tl) t_arr target tol
             (py_range_down (Z.of_nat last)) (nth (length t_arr - 1) t_arr d) ;;
     Ok (mul (py_max (lit 0)
                (div (sub (fold_left np_maximum tl h) target) target))
             (lit 100), ts))) as Unfold.
  { intros d. unfold get_metrics. rewrite np_max_ok. cbn [bind].
    rewrite (getitem_last_nth d Ht). cbn [bind].
    replace (Z.of_nat (length (h :: tl)) - 1)%Z with (Z.of_nat last)
      by (rewrite El; simpl length; lia).
    reflexivity. }
  eexists. split.
  - intros i Hi Hex Habove.
    rewrite (Unfold (lit 0)), (settle_scan_last _ _ _ _ _ (i := i)); auto.
    + rewrite (getitem_nth t_arr (lit 0)); [reflexivity|].
      rewrite Hlen. simpl. lia.
    + simpl. lia.
  - intros Hnone.
    rewrite (Unfold (lit 0)), settle_scan_default; auto.
    + cbn [bind].
      replace (length t_arr - 1)%nat with last
        by (rewrite Hlen, El; simpl; lia).
      reflexivity.
    + simpl. lia.
Qed.

(** Every stamp of the grid lies in [[0, t_max]]. *)
Lemma linspace_in_horizon (t_max : Q) (n : Z) (t : list Q) :
  0 < t_max -> (1 <= n)%Z ->
  np_linspace (lit 0) t_max n = Ok t ->
  length t = Z.to_nat n ->
  forall a, In a t -> 0 <= a <= t_max.
Proof.
  intros Ht Hn Run Hlen a Hin.
  destruct (In_nth t a 0 Hin) as (i & Hi & <-).
  rewrite (linspace_grid Ht Hn Run) by lia.
  assert (0 <= inject_Z (Z.of_nat i)) as Hi0
    by (change 0 with (inject_Z 0); rewrite <- Zle_Qle; lia).
  destruct (Z.eq_dec n 1) as [-> | Hn1].
  - assert (i = 0)%nat as -> by (simpl in Hlen; lia).
    change (inject_Z (Z.of_nat 0)) with 0. lra.
  - assert (0 < inject_Z (n - 1)) as Hpos by (apply inject_Z_pos; lia).
    assert (inject_Z (Z.of_nat i) <= inject_Z (n - 1)) as Hle
      by (rewrite <- Zle_Qle; lia).
    assert (0 < t_max / inject_Z (n - 1)) as Hh
      by (apply Qlt_shift_div_l; lra).
    split.
    + apply Qmult_le_0_compat; lra.
    + setoid_replace t_max
        with (inject_Z (n - 1) * (t_max / inject_Z (n - 1))) at 2
        by (field; lra).
      apply Qmult_le_compat_r; lra.
Qed.

(** X2.  On the trajectory of a valid run the settling time is one of the time
    stamps, hence within [[0, t_max]], for every target. *)
Lemma settling_time_in_horizon (m c k Kp x_target t_max dt target : Q) :
  valid_input m c k Kp t_max dt ->
  exists t x u os ts,
    simulate_bridge m c k Kp x_target t_max dt = Ok (t, x, u) /\
    get_metrics x t target = Ok (os, ts) /\
    In ts t /\ 0 <= ts <= t_max.
Proof.
  intros V.
  destruct (valid_step_count V) as (Hq & Hn & Hge).
  destruct (simulate_state_run m c k Kp x_target t_max dt Hq Hn)
    as (t & x & v & u & Run & Grid & Lt & Inv); [lia|].
  destruct Inv as [Lx _ _ _ _ _ _ _ _].
  destruct (get_metrics_ok (x_arr := x) t target)
    as (M & ts & _ & Met & Hin).
  { intros ->. cbn [length] in Lx. lia. }
  { congruence. }
  exists t, x, u, (py_max 0 ((M - target) / target) * 100), ts.
  split; [now apply simulate_bridge_of_state with v|].
  split; [exact Met|]. split; [exact Hin|].
  apply (linspace_in_horizon (n := Qfloor (t_max / dt)) (t := t));
    solve [assumption | apply V | lia].
Qed.

(** *** A zero target *)






(** *** Overshoot *)

(** The overshoot [get_metrics] returns, in any arithmetic. *)
Lemma get_metrics_overshoot {F : Type} {num : Scalar F}
      (x_arr t_arr : list F) (target os ts : F) :
  get_metrics x_arr t_arr target = Ok (os, ts) ->
  exists max_val,
    np_max x_arr = Ok max_val /\
    os = mul (py_max (lit 0) (div (sub max_val target) target)) (lit 100).
Proof.
  unfold get_metrics. intros H.
  destruct (np_max x_arr) as [M|e]; [|discriminate H]. cbn [bind] in H.
  destruct (getitem_last t_arr) as [d|e]; [|discriminate H]. cbn [bind] in H.
  destruct (settle_scan _ _ _ _ _ _) as [ts'|e]; [|discriminate H].
  cbn [bind] in H. injection H as <- <-. eauto.
Qed.

(** X3.  In binary64 the overshoot returned is never below zero, for every
    trajectory and every target, zero, infinite and NaN ones included:
    Python's [max(0, y)] keeps [0] unless [y > 0]. *)
Lemma overshoot_nonneg_binary64
      (x_arr t_arr : list float) (target os ts : float) :
  get_metrics x_arr t_arr target = Ok (os, ts) ->
  PrimFloat.leb 0 os = true.
Proof.
  intros H. destruct (get_metrics_overshoot _ _ _ H) as (M & _ & ->).
  cbn [mul sub div binary64]. rewrite lit_0_binary64, lit_100_binary64.
  unfold py_max. cbn [ltb binary64].
  destruct (PrimFloat.ltb 0 ((M - target) / target)) eqn:E.
  - apply mul_pos_nonneg; [exact E | vm_compute; reflexivity].
  - vm_compute. reflexivity.
Qed.

Lemma np_maximum_exact (a b : Q) :
  np_maximum a b = if Qle_bool b a then a else b.
Proof.
  unfold np_maximum. cbn [leb eqb exact].
  rewrite Qeq_bool_refl. cbn [negb]. now rewrite orb_false_r.
Qed.

(** In exact arithmetic [np.max] returns an element that bounds all. *)
Lemma np_max_exact (h : Q) (tl : list Q) :
  In (fold_left np_maximum tl h) (h :: tl) /\
  forall a, In a (h :: tl) -> a <= fold_left np_maximum tl h.
Proof.
  revert h; induction tl as [|b tl IH]; intros h.
  - split; [now left | intros a [<- | []]; apply Qle_refl].
  - cbn [fold_left]. destruct (IH (np_maximum h b)) as (Hin & Hub).
    rewrite np_maximum_exact in Hin, Hub |- *.
    destruct (Qle_bool b h) eqn:E.
    + apply Qle_bool_iff in E. split.
      * destruct Hin as [<- | Hin]; [now left | right; now right].
      * intros a [<- | [<- | Ha]].
        -- apply Hub. now left.
        -- apply Qle_trans with h; [exact E | apply Hub; now left].
        -- apply Hub. now right.
    + assert (h <= b) as Hle.
      { apply Qlt_le_weak, Qnot_le_lt. intros L.
        apply Qle_bool_iff in L. congruence. }
      split.
      * destruct Hin as [<- | Hin]; [right; now left | right; now right].
      * intros a [<- | [<- | Ha]].
        -- apply Qle_trans with b; [exact Hle | apply Hub; now left].
        -- apply Hub. now left.
        -- apply Hub. now right.
Qed.

Lemma py_max_exact (y : Q) : py_max 0 y == Qmax 0 y /\ 0 <= py_max 0 y.
Proof.
  unfold py_max. destruct (ltb 0 y) eqn:E.
  - apply ltb_lt in E. rewrite Q.max_r by lra. split; lra.
  - apply ltb_ge in E. rewrite Q.max_l by lra. split; lra.
Qed.

(** The script's analyzer below a negative target, in binary64:
    [get_metrics([-2], [0], -1)] reports an overshoot of 100 percent
    although the only sample, [-2], does not exceed the target [-1]. *)
Lemma overshoot_below_negative_target :
  PrimFloat.leb (-2) (-1) = true /\
  PrimFloat.eqb (-1) 0 = false /\
  get_metrics (F := float) [-2]%float [0]%float (-1)%float
  = Ok (100%float, 0%float) /\
  PrimFloat.eqb 100 0 = false.
Proof. repeat split; vm_compute; reflexivity. Qed.

(** C6, as the code has it.  For every non-empty trajectory and every
    non-zero target the analyzer returns
    [overshootPercent = max(0, (max(x) - target)/target) * 100], which is
    never negative; for a positive target, a trajectory that never exceeds
    the target yields [overshootPercent = 0]. *)
Theorem overshoot_clamped (x_arr t_arr : list Q) (target : Q) :
  x_arr <> [] -> length t_arr = length x_arr -> ~ target == 0 ->
  exists max_val os ts,
    np_max x_arr = Ok max_val /\
    In max_val x_arr /\ (forall a, In a x_arr -> a <= max_val) /\
    get_metrics x_arr t_arr target = Ok (os, ts) /\
    os == Qmax 0 ((max_val - target) / target) * 100 /\
    0 <= os /\
    (0 < target -> (forall a, In a x_arr -> a <= target) -> os == 0).
Proof.
  intros Hx Hlen Hne.
  destruct (get_metrics_ok t_arr target Hx Hlen) as (M & ts & EM & E & _).
  destruct x_arr as [|h tl]; [congruence|].
  rewrite np_max_ok in EM. injection EM as <-.
  destruct (np_max_exact h tl) as (Hin & Hub).
  set (M := fold_left np_maximum tl h) in *.
  destruct (py_max_exact ((M - target) / target)) as (Emax & Hpos).
  exists M, (py_max 0 ((M - target) / target) * 100), ts.
  repeat (split; [assumption || reflexivity|]).
  split; [now rewrite Emax|].
  split; [lra|].
  intros Hpt Hbelow.
  assert ((M - target) / target <= 0) as Hy.
  { apply Qle_shift_div_r; [assumption|]. specialize (Hbelow M Hin). lra. }
  rewrite Emax, Q.max_l by assumption. ring.
Qed.

Lemma overshoot_clamped_witness :
  exists max_val os ts : Q,
    np_max [0; 0.5; 0.9] = Ok max_val /\
    In max_val [0; 0.5; 0.9] /\
    (forall a, In a [0; 0.5; 0.9] -> a <= max_val) /\
    get_metrics [0; 0.5; 0.9] [0; 1; 2] 1 = Ok (os, ts) /\
    os == Qmax 0 ((max_val - 1) / 1) * 100 /\
    0 <= os /\
    (0 < 1 -> (forall a, In a [0; 0.5; 0.9] -> a <= 1) -> os == 0).
Proof.
  apply (overshoot_clamped (x_arr := [0; 0.5; 0.9]) [0; 1; 2] (target := 1)).
  - intros H; discriminate H.
  - reflexivity.
  - intros H; discriminate H.
Defined.

End MetricsSpec.

(** ** The cost estimate *)

Section CostSpec.
Local Open Scope Q_scope.

Lemma total_abs (u : list Q) : fold_right Qplus 0 (map Qabs u) == sum_abs u.
Proof.
  induction u as [|a tl IH]; cbn [map fold_right sum_abs]; [reflexivity|].
  now rewrite IH.
Qed.

(** Without rounding, the order in which [np.sum] adds is of no
    consequence: the cost is the sum of the [|u[i]|] times 0.1. *)
Lemma u_cost_sum_abs (u : list Q) : u_cost u == sum_abs u * 0.1.
Proof.
  unfold u_cost. cbn [mul fabs lit exact].
  now rewrite np_sum_exact, total_abs.
Qed.

Lemma sum_abs_nonneg (u : list Q) : 0 <= sum_abs u.
Proof.
  induction u as [|a tl IH]; cbn [sum_abs]; [lra|].
  pose proof (Qabs_nonneg a). lra.
Qed.

Lemma sum_abs_app (p q : list Q) : sum_abs (p ++ q) == sum_abs p + sum_abs q.
Proof.
  induction p as [|a tl IH]; cbn [app sum_abs]; [ring|].
  rewrite IH. ring.
Qed.



(** In binary64 the sum [np.sum] returns for samples that are not below
    zero is not below zero, in whatever order they are added. *)
Lemma np_sum_nonneg_binary64 (a : list float) :
  Forall nonneg a -> nonneg (np_sum a).
Proof.
  apply (@np_sum_closed float binary64 nonneg add_nonneg);
    unfold nonneg; vm_compute; reflexivity.
Qed.

Lemma u_cost_nonneg (u : list float) :
  Forall (fun a => PrimFloat.eqb a a = true) u -> nonneg (u_cost u).
Proof.
  intros H. unfold u_cost. cbn [mul fabs binary64].
  apply mul_nonneg; [|vm_compute; reflexivity|vm_compute; exact I].
  apply np_sum_nonneg_binary64.
  apply Forall_map. revert H. apply Forall_impl. exact abs_nonneg.
Qed.

(** X4.  In binary64, with the samples added in the order of numpy's pairwise
    summation: the cost of a control sequence without NaN is never below
    zero. *)
Lemma u_cost_nonneg_binary64 (u : list float) :
  Forall (fun a => PrimFloat.eqb a a = true) u ->
  PrimFloat.leb 0 (u_cost u) = true.
Proof. exact (@u_cost_nonneg u). Qed.

End CostSpec.

(** ** The two classifications *)

Section ClassifierSpec.

(** C5.  The feedback block applies these fixed thresholds in this
    structure: [overshoot > 30] gives the severe-oscillation finding, of
    severity error; otherwise [settlingTime > 10.0] gives the sluggish
    finding, a warning; [cost > 500] independently gives the budget
    finding, a warning, after either of them or alone; and when none of
    these fired and [overshoot < 15] the success finding is the only one.
    With overshoot 35, settling time 2 and cost 100 there is exactly one
    finding, of severity error; with overshoot 5, settling time 2 and cost
    50 exactly one, of severity success. *)
Theorem holmes_feedback_thresholds :
  (forall (F : Type) (num : Scalar F) (os_true ts_true cost : F),
      holmes_feedback os_true ts_true cost =
      let primary :=
        if ltb (lit 30.0) os_true then [turbulence]
        else if ltb (lit 10.0) ts_true then [car_stuck]
        else [] in
      let fired :=
        primary ++ (if ltb (lit 500) cost then [budget_overload] else []) in
      if is_empty fired && ltb os_true (lit 15.0) then [elegant] else fired) /\
  (type turbulence = error /\ type car_stuck = warning /\
   type budget_overload = warning /\ type elegant = success) /\
  (map type (holmes_feedback (F := float) (lit 35) (lit 2) (lit 100))
     = [error] /\
   map type (holmes_feedback (F := float) (lit 5) (lit 2) (lit 50))
     = [success]) /\
  (map type (holmes_feedback (F := Q) 35 2 100) = [error] /\
   map type (holmes_feedback (F := Q) 5 2 50) = [success]).
Proof.
  split; [|split; [|split]].
  - intros F num os_true ts_true cost.
    unfold holmes_feedback, feedback_block. cbn zeta.
    destruct (ltb (lit 30.0) os_true), (ltb (lit 10.0) ts_true),
      (ltb (lit 500) cost), (ltb os_true (lit 15.0)); reflexivity.
  - repeat split.
  - split; vm_compute; reflexivity.
  - split; vm_compute; reflexivity.
Qed.

(** C8.  The case report gives each of the three metrics exactly one
    verdict, with thresholds of its own: [overshoot < 10] is favourable,
    else adverse; [settlingTime < 5.0] is favourable, else adverse;
    [cost < 300] is favourable, else adverse.  Every call therefore lists
    exactly three verdicts over [pros] and [cons]. *)
Theorem case_report_three_verdicts
        (F : Type) (num : Scalar F) (os_true ts_true cost : F) :
  pros os_true ts_true cost =
    (if ltb os_true (lit 10.0) then [LowOscillation] else [])
    ++ (if ltb ts_true (lit 5.0) then [QuickResponse] else [])
    ++ (if ltb cost (lit 300) then [Economic] else []) /\
  cons_ os_true ts_true cost =
    (if ltb os_true (lit 10.0) then [] else [HighRisk])
    ++ (if ltb ts_true (lit 5.0) then [] else [SluggishResponse])
    ++ (if ltb cost (lit 300) then [] else [Expensive]) /\
  (length (pros os_true ts_true cost)
   + length (cons_ os_true ts_true cost) = 3)%nat.
Proof.
  unfold pros, cons_, case_report.
  destruct (ltb os_true (lit 10.0)), (ltb ts_true (lit 5.0)),
    (ltb cost (lit 300)); repeat split.
Qed.

End ClassifierSpec.

(** * More of the script *)

(** ** The analyzer on its own *)

Section AnalyzerExtras.
Local Open Scope Q_scope.

Lemma get_metrics_settling_time_witness :
  let x_arr := [0; 0.5; 2; 1]%float in
  let t_arr := [0; 1; 2; 3]%float in
  let target := 1%float in
  let tol := mul (lit 0.05) target in
  let last := (length x_arr - 1)%nat in
  exists os,
    (forall i, (1 <= i <= last)%nat ->
       exceeds x_arr target tol i = true ->
       (forall j, (i < j <= last)%nat -> exceeds x_arr target tol j = false) ->
       get_metrics x_arr t_arr target = Ok (os, nth i t_arr (lit 0))) /\
    ((forall i, (1 <= i <= last)%nat -> exceeds x_arr target tol i = false) ->
       get_metrics x_arr t_arr target = Ok (os, nth last t_arr (lit 0))).
Proof.
  apply (get_metrics_settling_time
           (x_arr := [0; 0.5; 2; 1]%float) [0; 1; 2; 3]%float 1%float).
  - intros H; discriminate H.
  - reflexivity.
Defined.

Lemma settling_time_in_horizon_witness :
  exists t x u os ts,
    simulate_bridge 2 0.8 10 10 1 15.0 0.01 = Ok (t, x, u) /\
    get_metrics x t 1 = Ok (os, ts) /\
    In ts t /\ 0 <= ts <= 15.0.
Proof.
  apply (settling_time_in_horizon (m := 2) (c := 0.8) (k := 10) (Kp := 10)
           1 (t_max := 15.0) (dt := 0.01) 1).
  split; reflexivity || (intros H; discriminate H).
Defined.

Lemma overshoot_nonneg_binary64_witness : PrimFloat.leb 0 infinity = true.
Proof.
  apply (overshoot_nonneg_binary64 [1; 2]%float [0; 1]%float 0%float
           (os := infinity) (ts := 1%float)).
  vm_compute. reflexivity.
Defined.

Lemma u_cost_nonneg_binary64_witness :
  PrimFloat.leb 0 (u_cost [1; -3; infinity]%float) = true.
Proof.
  apply (u_cost_nonneg_binary64 (u := [1; -3; infinity]%float)).
  repeat constructor.
Defined.

Lemma zero_gain_stays_at_rest_binary64_witness :
  exists t x v u : list float,
    simulate_state (lit 2) (lit 0.8) (lit 10) 0%float (lit 1)
      (lit 1) (lit 0.25) = Ok (t, x, v, u) /\
    length x = 4%nat /\
    Forall is_zero u /\
    Forall (fun a => a = 0%float) x /\
    Forall (fun a => a = 0%float) v.
Proof.
  apply (zero_gain_stays_at_rest_binary64
           (lit 2) (lit 0.8) (lit 10) (lit 1) (lit 1) (lit 0.25)
           (q := 4%float) (n_steps := 4%Z));
    try (vm_compute; exact I); try (vm_compute; reflexivity).
  lia.
Defined.

End AnalyzerExtras.

(** ** The analyzer, for every arithmetic *)

Section AnalyzerFacts.
Context {F : Type} {num : Scalar F}.
Local Open Scope scalar_scope.

(** [get_metrics] on a non-empty trajectory and a non-empty time base is
    the scan, started with [t_arr[-1]]. *)
Lemma get_metrics_scan (h : F) (tl t_arr : list F) (target d : F) :
  t_arr <> [] ->
  get_metrics (h :: tl) t_arr target =
  (ts <- settle_scan (h :: tl) t_arr target (lit 0.05 * target)
           (py_range_down (Z.of_nat (length tl)))
           (nth (length t_arr - 1) t_arr d) ;;
   Ok (py_max (lit 0) ((fold_left np_maximum tl h - target) / target)
       * lit 100, ts))%result.
Proof.
  intros Ht. unfold get_metrics. rewrite np_max_ok. cbn [bind].
  rewrite (getitem_last_nth d Ht). cbn [bind].
  replace (Z.of_nat (length (h :: tl)) - 1)%Z with (Z.of_nat (length tl))
    by (simpl length; lia).
  reflexivity.
Qed.

(** The first listed index outside the band decides the scan. *)
Lemma settle_scan_first_hit x_arr t_arr target tol d pre i post :
  (forall j, In j pre ->
     (j < length x_arr)%nat /\ exceeds x_arr target tol j = false) ->
  (i < length x_arr)%nat -> exceeds x_arr target tol i = true ->
  settle_scan x_arr t_arr target tol (pre ++ i :: post) d = getitem t_arr i.
Proof.
  induction pre as [|j pre IH]; intros Hpre Hi Hex; cbn [app].
  - now rewrite settle_scan_cons, Hex.
  - destruct (Hpre j (or_introl eq_refl)) as (Hj & Ej).
    rewrite settle_scan_cons, Ej by assumption.
    apply IH; auto. intros j' Hj'. apply Hpre. now right.
Qed.

(** X6.  When [get_metrics] raises and when it does not.  An empty trajectory
    is a ValueError (from [np.max]), whatever the time base; an empty time
    base is an IndexError; a time base shorter than the trajectory is an
    IndexError as soon as the last sample is outside the band; a time base
    at least as long as the trajectory is accepted. *)
Theorem get_metrics_raises :
  (forall (t_arr : list F) (target : F),
      get_metrics [] t_arr target = Raise ValueError) /\
  (forall (x_arr : list F) (target : F),
      x_arr <> [] -> get_metrics x_arr [] target = Raise IndexError) /\
  (forall (x_arr t_arr : list F) (target : F),
      t_arr <> [] -> (length t_arr < length x_arr)%nat ->
      exceeds x_arr target (lit 0.05 * target) (length x_arr - 1) = true ->
      get_metrics x_arr t_arr target = Raise IndexError) /\
  (forall (x_arr t_arr : list F) (target : F),
      x_arr <> [] -> (length x_arr <= length t_arr)%nat ->
      exists os ts, get_metrics x_arr t_arr target = Ok (os, ts)).
Proof.
  split; [|split; [|split]].
  - reflexivity.
  - intros [|h tl] target Hx; [congruence | reflexivity].
  - intros [|h tl] t_arr target Ht Hlen Hex; [simpl in Hlen; lia|].
    rewrite (get_metrics_scan h tl target (lit 0) Ht).
    cbn [length] in Hlen, Hex.
    replace (S (length tl) - 1)%nat with (length tl) in Hex by lia.
    destruct (length tl) as [|hi] eqn:E.
    { destruct t_arr; [congruence | simpl in Hlen; lia]. }
    rewrite py_range_down_S, settle_scan_cons, Hex
      by (cbn [length]; lia).
    rewrite getitem_out by lia. reflexivity.
  - intros [|h tl] t_arr target Hx Hlen; [congruence|].
    assert (t_arr <> []) as Ht
      by (intros ->; simpl in Hlen; lia).
    rewrite (get_metrics_scan h tl target (lit 0) Ht).
    destruct (settle_scan_ok (h :: tl) t_arr target (lit 0.05 * target)
                (nth (length t_arr - 1) t_arr (lit 0)) (hi := length tl))
      as (ts & Scan & _); [simpl; lia | simpl in Hlen; lia |].
    rewrite Scan. cbn [bind]. eauto.
Qed.

End AnalyzerFacts.

Lemma get_metrics_raises_witness :
  get_metrics (F := float) [1; 2]%float [] 1%float = Raise IndexError /\
  get_metrics (F := float) [0; 0; 0]%float [0; 1]%float 1%float
    = Raise IndexError /\
  (exists os ts,
     get_metrics (F := float) [0; 1]%float [0; 1; 2]%float 1%float
     = Ok (os, ts)).
Proof.
  destruct (get_metrics_raises (F := float)) as (_ & H2 & H3 & H4).
  split; [|split].
  - apply H2. intros H; discriminate H.
  - apply H3; [intros H; discriminate H | cbn; lia | vm_compute; reflexivity].
  - apply H4; [intros H; discriminate H | cbn; lia].
Defined.

(** ** The analyzer on simulated trajectories *)

Section AnalyzerOnRuns.
Local Open Scope Q_scope.

(** [range(a+n-1, a-1, -1)] split at one of its indices. *)
Lemma rev_seq_split (a n i : nat) :
  (a <= i < a + n)%nat ->
  rev (seq a n) = rev (seq (S i) (a + n - S i)) ++ i :: rev (seq a (i - a)).
Proof.
  intros H.
  replace n with ((i - a) + S (a + n - S i))%nat at 1 by lia.
  rewrite seq_app, rev_app_distr.
  replace (a + (i - a))%nat with i by lia.
  cbn [seq rev]. now rewrite <- app_assoc.
Qed.

(** Above an index outside the band there is a last one. *)
Lemma last_exceeding {F : Type} {num : Scalar F}
      (x_arr : list F) (target tol : F) (hi i0 : nat) :
  (i0 <= hi)%nat -> exceeds x_arr target tol i0 = true ->
  exists i, (i0 <= i <= hi)%nat /\
    exceeds x_arr target tol i = true /\
    forall j, (i < j <= hi)%nat -> exceeds x_arr target tol j = false.
Proof.
  induction hi as [|hi IH]; intros Hi Hex.
  - exists i0. repeat split; auto; intros; lia.
  - destruct (exceeds x_arr target tol (S hi)) eqn:E.
    + exists (S hi). repeat split; auto; intros; lia.
    + assert (i0 <= hi)%nat as Hle.
      { destruct (Nat.eq_dec i0 (S hi)) as [-> | Hne]; [congruence | lia]. }
      destruct (IH Hle Hex) as (i & Hr & Hei & Habove).
      exists i. repeat split; auto; try lia.
      intros j Hj. destruct (Nat.eq_dec j (S hi)) as [-> | Hne]; auto.
      apply Habove. lia.
Qed.

(** With a step of at most half the horizon there are two samples. *)
Lemma two_samples (t_max dt : Q) :
  0 < dt -> 2 * dt <= t_max -> (2 <= Qfloor (t_max / dt))%Z.
Proof.
  intros Hdt H2.
  assert (2 <= t_max / dt) as Hq by (apply Qle_shift_div_l; lra).
  change 2%Z with (Qfloor 2). now apply Qfloor_resp_le.
Qed.

(** A sample at zero is outside the band of every non-zero target. *)
Lemma zero_sample_exceeds (x_arr : list Q) (target : Q) (i : nat) :
  nth i x_arr 0 == 0 -> ~ target == 0 ->
  exceeds x_arr target (0.05 * target) i = true.
Proof.
  intros Hx Hne. unfold exceeds. cbn [lit fabs sub mul exact].
  apply ltb_lt. rewrite Hx.
  apply Qabs_case; intros; lra.
Qed.

(** X7.  On the trajectory of a valid run with at least two samples and a
    non-zero target, the first step leaves the position at zero, so sample
    1 is outside the band and the scan always finds an index: the settling
    time is the stamp of a sample outside the band, it is positive, it is
    never the default, and scanning index 0 as well gives the same
    result. *)
Theorem settling_time_on_runs (m c k Kp x_target t_max dt target : Q) :
  valid_input m c k Kp t_max dt -> 2 * dt <= t_max -> ~ target == 0 ->
  exists t x u os ts i,
    simulate_bridge m c k Kp x_target t_max dt = Ok (t, x, u) /\
    get_metrics x t target = Ok (os, ts) /\
    nth 1 x 0 == 0 /\
    (1 <= i < length x)%nat /\
    ts = nth i t 0 /\
    exceeds x target (0.05 * target) i = true /\
    0 < ts /\
    settle_scan x t target (0.05 * target)
      (rev (seq 0 (length x))) (nth (length t - 1) t 0) = Ok ts.
Proof.
  intros V H2 Hne.
  destruct (valid_step_count V) as (Hq & Hn & _).
  pose proof (two_samples (step_pos V) H2) as Hge.
  destruct (simulate_state_run m c k Kp x_target t_max dt Hq Hn)
    as (t & x & v & u & Run & Grid & Lt & Inv); [lia|].
  set (n := Z.to_nat (Qfloor (t_max / dt))) in *.
  assert (2 <= n)%nat as Hn2 by (unfold n; lia).
  destruct Inv as [Lx Lv Lu X0 V0 St Rx Rv Ru].
  assert (nth 1 x 0 == 0) as X1.
  { destruct (St 0%nat) as (_ & _ & Ex); [lia|].
    cbn [Nat.add lit exact add mul] in Ex, X0, V0.
    rewrite Ex, X0, V0. ring. }
  pose proof (zero_sample_exceeds x 1 X1 Hne) as E1.
  destruct (last_exceeding x target (0.05 * target) (hi := n - 1) (i0 := 1))
    as (i & Hr & Hei & Habove); [lia | exact E1 |].
  destruct x as [|h tl]; [simpl in Lx; lia|].
  assert (t <> []) as Ht by (intros ->; simpl in Lt; lia).
  assert (length tl = n - 1)%nat as Ltl by (simpl in Lx; lia).
  assert (forall j, In j (rev (seq (S i) (n - S i))) ->
            (j < length (h :: tl))%nat /\
            exceeds (h :: tl) target (0.05 * target) j = false) as Hpre.
  { intros j Hj. apply in_rev, in_seq in Hj.
    split; [rewrite Lx; lia | apply Habove; lia]. }
  assert (getitem t i = Ok (nth i t 0)) as Gi
    by (apply getitem_nth; rewrite Lt; fold n; lia).
  exists t, (h :: tl), u,
    (py_max 0 ((fold_left np_maximum tl h - target) / target) * 100),
    (nth i t 0), i.
  split; [now apply simulate_bridge_of_state with v|].
  split.
  { rewrite (get_metrics_scan h tl target 0 Ht). rewrite Ltl.
    unfold py_range_down. rewrite Nat2Z.id.
    rewrite (@rev_seq_split 1 (n - 1) i) by lia.
    replace (1 + (n - 1) - S i)%nat with (n - S i)%nat by lia.
    cbn [lit mul exact].
    rewrite settle_scan_first_hit; auto; [now rewrite Gi | rewrite Lx; lia]. }
  split; [exact X1|].
  split; [rewrite Lx; lia|].
  split; [reflexivity|].
  split; [exact Hei|].
  split.
  { assert (1 <= Qfloor (t_max / dt))%Z as H1 by lia.
    rewrite (linspace_grid (horizon_pos V) H1 Grid) by (fold n; lia).
    assert (0 < inject_Z (Z.of_nat i)) by (apply inject_Z_pos; lia).
    assert (0 < inject_Z (Qfloor (t_max / dt) - 1))
      by (apply inject_Z_pos; lia).
    assert (0 < t_max / inject_Z (Qfloor (t_max / dt) - 1))
      by (apply Qlt_shift_div_l;
          [assumption | pose proof (horizon_pos V); lra]).
    apply Qmult_lt_0_compat; assumption. }
  rewrite Lx.
  rewrite (@rev_seq_split 0 n i) by lia.
  replace (0 + n - S i)%nat with (n - S i)%nat by lia.
  rewrite settle_scan_first_hit; auto. rewrite Lx; lia.
Qed.

Lemma settling_time_on_runs_witness :
  exists t x u os ts i,
    simulate_bridge 2 0.8 10 10 1 15.0 0.01 = Ok (t, x, u) /\
    get_metrics x t 1 = Ok (os, ts) /\
    nth 1 x 0 == 0 /\
    (1 <= i < length x)%nat /\
    ts = nth i t 0 /\
    exceeds x 1 (0.05 * 1) i = true /\
    0 < ts /\
    settle_scan x t 1 (0.05 * 1)
      (rev (seq 0 (length x))) (nth (length t - 1) t 0) = Ok ts.
Proof.
  apply (settling_time_on_runs (m := 2) (c := 0.8) (k := 10) (Kp := 10) 1
           (t_max := 15.0) (dt := 0.01) (target := 1)).
  - split; reflexivity || (intros H; discriminate H).
  - intros H; discriminate H.
  - intros H; discriminate H.
Defined.

End AnalyzerOnRuns.

(** ** The time grid of the two runs *)

Section GridExtras.
Local Open Scope Q_scope.

(** X8.  The script runs the simulator twice and keeps the time grid of the
    second run for both analyses.  In any arithmetic the grid and the
    outcome depend on the horizon and the step only: two calls with the
    same [t_max] and [dt] either raise the same exception or return the
    same grid and trajectories of the same length, whatever the plants,
    gains and targets are. *)
Theorem simulate_bridge_same_grid {F : Type} {num : Scalar F}
        (m c k Kp x_target m' c' k' Kp' x_target' t_max dt : F) :
  match simulate_bridge m c k Kp x_target t_max dt,
        simulate_bridge m' c' k' Kp' x_target' t_max dt with
  | Ok (t, x, u), Ok (t', x', u') =>
      t = t' /\ length x = length x' /\ length u = length u'
      /\ length x = length t
  | Raise e, Raise e' => e = e'
  | _, _ => False
  end.
Proof.
  destruct (py_div t_max dt) as [q|e] eqn:Hq.
  2:{ unfold simulate_bridge, simulate_state. now rewrite Hq. }
  destruct (to_int q) as [n|e] eqn:Hn.
  2:{ unfold simulate_bridge, simulate_state. rewrite Hq. cbn [bind].
      now rewrite Hn. }
  destruct (Z.lt_ge_cases n 0) as [Hneg | Hpos].
  - now rewrite !(simulate_bridge_negative_count _ _ _ _ _ _ _ Hq Hn Hneg).
  - destruct (simulate_state_run m c k Kp x_target t_max dt Hq Hn Hpos)
      as (t & x & v & u & Run & Grid & Lt & Inv).
    destruct (simulate_state_run m' c' k' Kp' x_target' t_max dt Hq Hn Hpos)
      as (t' & x' & v' & u' & Run' & Grid' & Lt' & Inv').
    rewrite (simulate_bridge_of_state _ _ _ _ _ _ _ Run).
    rewrite (simulate_bridge_of_state _ _ _ _ _ _ _ Run').
    destruct Inv, Inv'. repeat split; congruence.
Qed.

(** X9.  In exact arithmetic the grid of [n >= 2] samples starts at 0, ends at
    [t_max] itself and is strictly increasing. *)
Theorem linspace_increasing (t_max : Q) (n : Z) (t : list Q) :
  0 < t_max -> (2 <= n)%Z ->
  np_linspace (lit 0) t_max n = Ok t ->
  length t = Z.to_nat n /\
  nth 0 t 0 == 0 /\
  nth (Z.to_nat n - 1) t 0 = t_max /\
  forall i j, (i < j < Z.to_nat n)%nat -> nth i t 0 < nth j t 0.
Proof.
  intros Ht Hn Run.
  assert (1 <= n)%Z as H1 by lia.
  destruct (np_linspace_ok (lit 0) t_max (n := n)) as (t' & Run' & Lt);
    [lia|].
  assert (t' = t) as -> by congruence.
  pose proof (linspace_grid Ht H1 Run) as G.
  assert (0 < inject_Z (n - 1)) as Hpos by (apply inject_Z_pos; lia).
  assert (0 < t_max / inject_Z (n - 1)) as Hh
    by (apply Qlt_shift_div_l; lra).
  split; [exact Lt|]. split; [|split].
  - rewrite G by lia. change (inject_Z (Z.of_nat 0)) with 0. ring.
  - unfold np_linspace in Run.
    replace (n <? 0)%Z with false in Run by (symmetry; apply Z.ltb_ge; lia).
    replace (1 <? n)%Z with true in Run by (symmetry; apply Z.ltb_lt; lia).
    injection Run as E. rewrite <- E in Lt |- *.
    rewrite length_update in Lt. apply nth_update_eq. lia.
  - intros i j Hij. rewrite !G by lia.
    assert (inject_Z (Z.of_nat i) < inject_Z (Z.of_nat j))
      by (rewrite <- Zlt_Qlt; lia).
    apply Qmult_lt_compat_r; assumption.
Qed.

Lemma linspace_increasing_witness :
  exists t : list Q,
    np_linspace (lit 0) 1 5 = Ok t /\
    length t = 5%nat /\
    nth 0 t 0 == 0 /\
    nth 4 t 0 = 1 /\
    forall i j, (i < j < 5)%nat -> nth i t 0 < nth j t 0.
Proof.
  destruct (np_linspace (F := Q) (lit 0) 1 5) as [t|e] eqn:E;
    [|discriminate E].
  exists t. split; [reflexivity|].
  apply (linspace_increasing (t_max := 1) (n := 5));
    [reflexivity | lia | exact E].
Defined.

End GridExtras.

(** ** The feedback and the report together *)

Section FeedbackExtras.

Ltac feedback_cases os ts cost :=
  unfold holmes_feedback, feedback_block; cbn zeta;
  destruct (ltb (lit 30.0) os), (ltb (lit 10.0) ts),
    (ltb (lit 500) cost), (ltb os (lit 15.0));
  cbn [app is_empty andb fst snd].

(** X15.  In any arithmetic the deductions shown are few and exclusive: at
    most
    two, never one twice, never the turbulence and the stalled-car finding
    together, and the success finding only on its own.  The budget finding
    is there exactly when [cost > 500]. *)
Theorem holmes_feedback_exclusive {F : Type} {num : Scalar F}
        (os ts cost : F) :
  let fb := holmes_feedback os ts cost in
  (length fb <= 2)%nat /\
  NoDup fb /\
  ~ (In turbulence fb /\ In car_stuck fb) /\
  (In elegant fb -> fb = [elegant]) /\
  (In budget_overload fb <-> ltb (lit 500) cost = true).
Proof.
  feedback_cases os ts cost;
    (split; [cbn; lia|]);
    (split; [repeat constructor; cbn; intuition discriminate|]);
    (split; [cbn; intuition discriminate|]);
    (split; [cbn; intuition discriminate|]);
    cbn; intuition discriminate.
Qed.

(** X16.  In any arithmetic the plot background follows the deductions: red
    exactly with the turbulence finding, amber exactly with the stalled
    car, green exactly with the success finding, and the default grey when
    nothing or only the budget finding is shown. *)
Theorem status_bg_follows_findings {F : Type} {num : Scalar F}
        (os ts cost : F) :
  let fb := fst (feedback_block os ts cost) in
  let bg := snd (feedback_block os ts cost) in
  (bg = "#ffeeee"%string <-> In turbulence fb) /\
  (bg = "#fff8e1"%string <-> In car_stuck fb) /\
  (bg = "#e8f5e9"%string <-> In elegant fb) /\
  (bg = "#f0f2f6"%string <-> fb = [] \/ fb = [budget_overload]).
Proof.
  unfold feedback_block; cbn zeta;
  destruct (ltb (lit 30.0) os), (ltb (lit 10.0) ts),
    (ltb (lit 500) cost), (ltb os (lit 15.0));
  cbn [app is_empty andb fst snd];
    repeat split; cbn; intuition discriminate.
Qed.

Local Open Scope Q_scope.

(** X17.  In exact arithmetic: a case report without any adverse line comes
    with
    the success finding alone and the green background. *)
Theorem favourable_report_is_elegant (os ts cost : Q) :
  cons_ os ts cost = [] ->
  pros os ts cost = [LowOscillation; QuickResponse; Economic] /\
  holmes_feedback os ts cost = [elegant] /\
  snd (feedback_block os ts cost) = "#e8f5e9"%string.
Proof.
  unfold cons_, pros, case_report, holmes_feedback, feedback_block.
  cbn zeta.
  destruct (ltb os (lit 10.0)) eqn:E1, (ltb ts (lit 5.0)) eqn:E2,
    (ltb cost (lit 300)) eqn:E3;
    cbn [app fst snd]; intros H; try discriminate H.
  cbn [lit exact] in *.
  apply ltb_lt in E1, E2, E3.
  replace (ltb 30.0 os) with false by (symmetry; apply ltb_ge; lra).
  replace (ltb 10.0 ts) with false by (symmetry; apply ltb_ge; lra).
  replace (ltb 500 cost) with false by (symmetry; apply ltb_ge; lra).
  replace (ltb os 15.0) with true by (symmetry; apply ltb_lt; lra).
  repeat split.
Qed.

Lemma favourable_report_is_elegant_witness :
  pros 5 2 50 = [LowOscillation; QuickResponse; Economic] /\
  holmes_feedback 5 2 50 = [elegant] /\
  snd (feedback_block 5 2 50) = "#e8f5e9"%string.
Proof.
  apply (favourable_report_is_elegant 5 2 50). reflexivity.
Defined.

(** X18.  In exact arithmetic no deduction at all is shown exactly when the
    overshoot is between 15 and 30 percent, the settling time at most 10
    and the cost at most 500. *)
Theorem holmes_feedback_silent (os ts cost : Q) :
  holmes_feedback os ts cost = [] <->
  15.0 <= os <= 30.0 /\ ts <= 10.0 /\ cost <= 500.
Proof.
  unfold holmes_feedback, feedback_block. cbn zeta. cbn [lit exact].
  destruct (ltb 30.0 os) eqn:E1; [apply ltb_lt in E1 | apply ltb_ge in E1];
  destruct (ltb 10.0 ts) eqn:E2; [apply ltb_lt in E2 | apply ltb_ge in E2 |
                                   apply ltb_lt in E2 | apply ltb_ge in E2];
  destruct (ltb 500 cost) eqn:E3;
  destruct (ltb os 15.0) eqn:E4;
  cbn [app is_empty andb fst snd];
  try apply ltb_lt in E3; try apply ltb_ge in E3;
  try apply ltb_lt in E4; try apply ltb_ge in E4;
  (split; [intros H; try discriminate H; repeat split; lra
          | intros (H1 & H2 & H3); try reflexivity; lra]).
Qed.

End FeedbackExtras.

(** ** The sidebar *)

Section SidebarExtras.
Local Open Scope Q_scope.

(** X13.  In exact arithmetic the context colours are ordered with the factor:
    a heavier load never looks better and a healthier metal never looks
    worse.  If the larger of two load factors is blue so is the smaller,
    if the smaller is red so is the larger; for the metal health it is the
    other way round. *)
Theorem context_colour_monotone (a b : Q) :
  a <= b ->
  (snd (get_load_context b) = "blue"%string ->
   snd (get_load_context a) = "blue"%string) /\
  (snd (get_load_context a) = "red"%string ->
   snd (get_load_context b) = "red"%string) /\
  (snd (get_rust_context a) = "blue"%string ->
   snd (get_rust_context b) = "blue"%string) /\
  (snd (get_rust_context b) = "red"%string ->
   snd (get_rust_context a) = "red"%string).
Proof.
  intros Hab. unfold get_load_context, get_rust_context. cbn [lit exact].
  repeat split;
    repeat match goal with
    | |- context [leb ?x ?y] =>
        let E := fresh "E" in
        destruct (leb x y) eqn:E;
        [apply leb_le in E
        | assert (y < x) by
            (apply Qnot_le_lt; intros L; apply leb_le in L; congruence);
          clear E]
    end; cbn [snd]; intros Hcol; try discriminate Hcol; try reflexivity;
      lra.
Qed.

Lemma context_colour_monotone_witness :
  (snd (get_load_context 1.5) = "blue"%string ->
   snd (get_load_context 1.0) = "blue"%string) /\
  (snd (get_load_context 1.0) = "red"%string ->
   snd (get_load_context 1.5) = "red"%string) /\
  (snd (get_rust_context 1.0) = "blue"%string ->
   snd (get_rust_context 1.5) = "blue"%string) /\
  (snd (get_rust_context 1.5) = "red"%string ->
   snd (get_rust_context 1.0) = "red"%string).
Proof.
  apply (context_colour_monotone (a := 1.0) (b := 1.5)).
  intros H; discriminate H.
Defined.

(** X14.  In exact arithmetic the value handed to the progress bar is within
    [[0, 1]] for every gain that is not negative: it is [Kp/50] up to
    [Kp = 50] and 1 beyond. *)
Theorem tension_in_unit_interval (Kp : Q) :
  0 <= Kp ->
  0 <= tension Kp <= 1 /\
  (Kp <= 50 -> tension Kp == Kp / 50) /\
  (50 <= Kp -> tension Kp == 1).
Proof.
  intros HK. unfold tension, py_min. cbn [lit div exact].
  assert (Kp / 50.0 == Kp / 50) as E by (field; lra).
  assert (0 <= Kp / 50) as H0 by (apply Qle_shift_div_l; lra).
  destruct (ltb 1.0 (Kp / 50.0)) eqn:L.
  - apply ltb_lt in L. rewrite E in L.
    assert (50 < Kp).
    { apply Qnot_le_lt. intros Hle.
      assert (Kp / 50 <= 1) by (apply Qle_shift_div_r; lra). lra. }
    repeat split; intros; lra.
  - apply ltb_ge in L. rewrite E in *.
    split; [split; lra|]. split; [reflexivity|].
    intros H50.
    assert (1 <= Kp / 50) by (apply Qle_shift_div_l; lra). lra.
Qed.

Lemma tension_in_unit_interval_witness :
  0 <= tension 10 <= 1 /\
  (10 <= 50 -> tension 10 == 10 / 50) /\
  (50 <= 10 -> tension 10 == 1).
Proof.
  apply (tension_in_unit_interval (Kp := 10)). intros H; discriminate H.
Defined.

End SidebarExtras.

(** ** The whole analysis *)

Section ScriptFacts.
Local Open Scope Q_scope.

(** The branch each radio option takes. *)
Lemma evidence_file_cases (w : widgets (F := Q)) :
  In (evidence w) evidence_options ->
  evidence_file w = (1.0, 1.0, None) \/
  evidence_file w
    = (load_status w, 1.0, Some (get_load_context (load_status w))) \/
  evidence_file w
    = (1.0, metal_health w, Some (get_rust_context (metal_health w))) \/
  evidence_file w = (storm_load w, storm_metal w, None).
Proof.
  intros [H | [H | [H | [H | []]]]]; unfold evidence_file; rewrite <- H.
  - left. reflexivity.
  - right; left. reflexivity.
  - right; right; left. reflexivity.
  - right; right; right. reflexivity.
Qed.

(** Within the slider bounds the perturbed plant is a valid one. *)
Lemma true_plant_bounds (w : widgets (F := Q)) :
  widgets_ok w -> 1 <= m_true w <= 5 /\ 0 <= c_true w <= 1.6.
Proof.
  intros [He HK Hl Hm Hsl Hsm]. unfold m_true, c_true, m_nom, c_nom.
  cbn [lit mul exact].
  destruct (evidence_file_cases w He) as [E | [E | [E | E]]];
    rewrite E; cbn [fst snd]; split; split; lra.
Qed.

(** A valid run, with what the analysis needs of it. *)
Lemma valid_run (m c k Kp x_target t_max dt : Q) :
  valid_input m c k Kp t_max dt ->
  exists t x v u,
    simulate_state m c k Kp x_target t_max dt = Ok (t, x, v, u) /\
    simulate_bridge m c k Kp x_target t_max dt = Ok (t, x, u) /\
    np_linspace (lit 0) t_max (Qfloor (t_max / dt)) = Ok t /\
    (1 <= Qfloor (t_max / dt))%Z /\
    length t = n_samples t_max dt /\
    euler_inv m c k Kp x_target dt
      (n_samples t_max dt) (n_samples t_max dt - 1) x v u.
Proof.
  intros V.
  destruct (valid_step_count V) as (Hq & Hn & Hge).
  destruct (simulate_state_run m c k Kp x_target t_max dt Hq Hn)
    as (t & x & v & u & Run & Grid & Lt & Inv); [lia|].
  exists t, x, v, u. repeat (split; [assumption|]).
  split; [now apply simulate_bridge_of_state with v|].
  repeat (split; [assumption|]). exact Inv.
Qed.

(** The metrics of a trajectory over a grid of its own length. *)
Lemma metrics_on_grid (t_max : Q) (n : Z) (t x : list Q) (target : Q) :
  0 < t_max -> (1 <= n)%Z ->
  np_linspace (lit 0) t_max n = Ok t ->
  length t = Z.to_nat n -> length x = Z.to_nat n ->
  exists os ts,
    get_metrics x t target = Ok (os, ts) /\ 0 <= os /\ 0 <= ts <= t_max.
Proof.
  intros Ht Hn Grid Lt Lx.
  destruct (get_metrics_ok (x_arr := x) t target)
    as (M & ts & _ & Met & Hin).
  { intros ->. cbn [length] in Lx. lia. }
  { congruence. }
  exists (py_max 0 ((M - target) / target) * 100), ts.
  split; [exact Met|]. split.
  - destruct (py_max_exact ((M - target) / target)) as (_ & Hpos). lra.
  - now apply (linspace_in_horizon Ht Hn Grid Lt).
Qed.

(** The default horizon and step give 1500 samples. *)
Lemma default_sample_count : n_samples 15.0 0.01 = 1500%nat.
Proof. reflexivity. Qed.

Lemma default_valid (m c Kp : Q) :
  0 < m -> 0 <= c -> 0 <= Kp -> valid_input m c k_nom Kp 15.0 0.01.
Proof.
  intros Hm Hc HK. split; try assumption; reflexivity.
Qed.

(** X10.  In exact arithmetic, for every radio option and every position of
    the
    sliders within their bounds, the perturbed plant is a valid one (mass
    in [[1, 5]], damping in [[0, 1.6]]) and nothing in the analysis raises:
    both runs return 1500 samples and the metrics and the cost come out
    within their ranges. *)
Theorem analyse_never_raises (w : widgets (F := Q)) :
  widgets_ok w ->
  1 <= m_true w <= 5 /\ 0 <= c_true w <= 1.6 /\
  exists a,
    analyse w = Ok a /\
    length (t_grid a) = 1500%nat /\
    length (x_nom a) = 1500%nat /\
    length (x_true a) = 1500%nat /\
    length (u_true a) = 1500%nat /\
    0 <= os_true a /\ 0 <= os_nom a /\
    0 <= ts_true a <= 15.0 /\ 0 <= ts_nom a <= 15.0 /\
    0 <= cost a.
Proof.
  intros Hw. destruct (true_plant_bounds Hw) as (Bm & Bc).
  split; [exact Bm|]. split; [exact Bc|].
  pose proof (Kp_range Hw) as HK.
  assert (valid_input m_nom c_nom k_nom (Kp_slider w) 15.0 0.01) as Vn
    by (apply default_valid; [reflexivity | intros H; discriminate H | lra]).
  assert (valid_input (m_true w) (c_true w) k_nom (Kp_slider w) 15.0 0.01)
    as Vt by (apply default_valid; lra).
  destruct (valid_run x_ref Vn)
    as (t & xn & vn & un & _ & Rn & Gn & Hn & Ltn & [Lxn _ Lun _ _ _ _ _ _]).
  destruct (valid_run x_ref Vt)
    as (t' & xt & vt & ut & _ & Rt & Gt & _ & Ltt & [Lxt _ Lut _ _ _ _ _ _]).
  rewrite default_sample_count in *.
  assert (0 < 15.0) as H15 by reflexivity.
  destruct (metrics_on_grid xt x_ref H15 Hn Gt Ltt Lxt)
    as (ost & tst & Mt & Post & Bt).
  destruct (metrics_on_grid xn x_ref H15 Hn Gt Ltt Lxn)
    as (osn & tsn & Mn & Posn & Bn).
  exists (Analysis t' xn un xt ut ost tst osn tsn (u_cost ut)).
  split.
  { unfold analyse. cbn [lit exact] in *. rewrite Rn. cbn [bind].
    rewrite Rt. cbn [bind]. rewrite Mt. cbn [bind]. rewrite Mn.
    reflexivity. }
  cbn [t_grid x_nom x_true u_true os_true os_nom ts_true ts_nom cost].
  repeat (split; [assumption|]).
  rewrite u_cost_sum_abs. pose proof (sum_abs_nonneg ut). lra.
Qed.

Lemma analyse_never_raises_witness :
  let w :=
    Widgets "File D: Weather Report (Storm)" 50 1.5 0.5 0.5 0 in
  1 <= m_true w <= 5 /\ 0 <= c_true w <= 1.6 /\
  exists a,
    analyse w = Ok a /\
    length (t_grid a) = 1500%nat /\
    length (x_nom a) = 1500%nat /\
    length (x_true a) = 1500%nat /\
    length (u_true a) = 1500%nat /\
    0 <= os_true a /\ 0 <= os_nom a /\
    0 <= ts_true a <= 15.0 /\ 0 <= ts_nom a <= 15.0 /\
    0 <= cost a.
Proof.
  apply (analyse_never_raises
           (w := Widgets "File D: Weather Report (Storm)" 50 1.5 0.5 0.5 0)).
  split; cbn; try (split; intros H; discriminate H).
  right; right; right; left. reflexivity.
Defined.

End ScriptFacts.

(** ** The page without control *)

Section ZeroGainPage.
Local Open Scope Q_scope.

(** With a gain equal to zero the position, the velocity and the control
    stay at zero along the whole run. *)
Lemma zero_gain_arrays (m c k Kp x_target dt : Q) (n j : nat) x v u :
  Kp == 0 -> euler_inv m c k Kp x_target dt n j x v u ->
  forall i, nth i x 0 == 0 /\ nth i v 0 == 0 /\ nth i u 0 == 0.
Proof.
  intros HK [Lx Lv Lu X0 V0 St Rx Rv Ru].
  cbn [lit exact] in *.
  assert (forall i, (i <= j)%nat -> nth i x 0 == 0 /\ nth i v 0 == 0) as P.
  { induction i as [|i IH]; intros Hi.
    - rewrite X0, V0. split; reflexivity.
    - destruct IH as (Hx & Hv); [lia|].
      destruct (St i) as (Eu & Ev & Ex); [lia|].
      replace (S i) with (i + 1)%nat by lia.
      unfold accel in Ev. cbn [add sub mul div neg exact] in Eu, Ev, Ex.
      rewrite Ex, Ev, Eu, Hx, Hv, HK. unfold Qdiv. split; ring. }
  intros i. destruct (Nat.le_gt_cases i j) as [Le | Gt].
  - destruct (P i Le) as (Hx & Hv). repeat split; try assumption.
    destruct (Nat.eq_dec i j) as [-> | Hne].
    + rewrite Ru by lia. reflexivity.
    + destruct (St i) as (Eu & _); [lia|].
      cbn [mul sub exact] in Eu. rewrite Eu, HK. ring.
  - rewrite Rx, Rv, Ru by lia. repeat split; reflexivity.
Qed.

(** The last stamp of a grid of two or more samples is [stop] itself, in
    any arithmetic. *)
Lemma linspace_last {F : Type} {num : Scalar F}
      (start stop d : F) (n : Z) (t : list F) :
  (2 <= n)%Z -> np_linspace start stop n = Ok t ->
  nth (Z.to_nat n - 1) t d = stop.
Proof.
  intros Hn Run.
  destruct (np_linspace_ok start stop (n := n)) as (t' & Run' & Lt); [lia|].
  assert (t' = t) as -> by congruence.
  unfold np_linspace in Run.
  replace (n <? 0)%Z with false in Run by (symmetry; apply Z.ltb_ge; lia).
  replace (1 <? n)%Z with true in Run by (symmetry; apply Z.ltb_lt; lia).
  injection Run as E. rewrite <- E in Lt |- *.
  rewrite length_update in Lt. apply nth_update_eq. lia.
Qed.

Lemma sum_abs_zero (u : list Q) :
  (forall i, nth i u 0 == 0) -> sum_abs u == 0.
Proof.
  induction u as [|a tl IH]; intros H; cbn [sum_abs]; [reflexivity|].
  rewrite IH by (intros i; apply (H (S i))).
  pose proof (H 0%nat) as H0. cbn [nth] in H0. rewrite H0. reflexivity.
Qed.

(** The page for an overshoot of zero, a settling time of 15 and no
    cost. *)
Lemma page_at_rest (os ts cost : Q) :
  os == 0 -> ts == 15 -> cost == 0 ->
  holmes_feedback os ts cost = [car_stuck] /\
  case_report os ts cost = ([LowOscillation; Economic], [SluggishResponse]).
Proof.
  intros Ho Ht Hc.
  unfold holmes_feedback, feedback_block, case_report. cbn zeta.
  cbn [lit exact].
  replace (ltb 30.0 os) with false by (symmetry; apply ltb_ge; lra).
  replace (ltb 10.0 ts) with true by (symmetry; apply ltb_lt; lra).
  replace (ltb 500 cost) with false by (symmetry; apply ltb_ge; lra).
  replace (ltb os 10.0) with true by (symmetry; apply ltb_lt; lra).
  replace (ltb ts 5.0) with false by (symmetry; apply ltb_ge; lra).
  replace (ltb cost 300) with true by (symmetry; apply ltb_lt; lra).
  split; reflexivity.
Qed.

(** X11.  In exact arithmetic, with the gain slider at zero the page is the
    same
    for every evidence file and every other slider position: the bridge
    never moves, the overshoot and the cost are zero, the last sample is
    still outside the band so the settling time is the horizon 15.0, the
    only deduction is the stalled car, and the report lists low
    oscillation and economy as favourable and the sluggish response as
    adverse. *)
Theorem zero_gain_page (w : widgets (F := Q)) :
  widgets_ok w -> Kp_slider w == 0 ->
  exists a,
    analyse w = Ok a /\
    Forall (fun z => z == 0) (x_true a) /\
    os_true a == 0 /\
    ts_true a = 15.0 /\
    cost a == 0 /\
    holmes_feedback (os_true a) (ts_true a) (cost a) = [car_stuck] /\
    case_report (os_true a) (ts_true a) (cost a)
      = ([LowOscillation; Economic], [SluggishResponse]).
Proof.
  intros Hw HK0. destruct (true_plant_bounds Hw) as (Bm & Bc).
  pose proof (Kp_range Hw) as HK.
  assert (valid_input m_nom c_nom k_nom (Kp_slider w) 15.0 0.01) as Vn
    by (apply default_valid; [reflexivity | intros H; discriminate H | lra]).
  assert (valid_input (m_true w) (c_true w) k_nom (Kp_slider w) 15.0 0.01)
    as Vt by (apply default_valid; lra).
  destruct (valid_run x_ref Vn)
    as (t & xn & vn & un & _ & Rn & Gn & Hn & Ltn & [Lxn _ Lun _ _ _ _ _ _]).
  destruct (valid_run x_ref Vt)
    as (t' & xt & vt & ut & _ & Rt & Gt & _ & Ltt & Inv).
  pose proof (zero_gain_arrays HK0 Inv) as Z.
  destruct Inv as [Lxt _ Lut _ _ _ _ _ _].
  rewrite default_sample_count in *.
  assert (0 < 15.0) as H15 by reflexivity.
  destruct (metrics_on_grid xn x_ref H15 Hn Gt Ltt Lxn)
    as (osn & tsn & Mn & _ & _).
  destruct xt as [|h tl]; [cbn [length] in Lxt; lia|].
  assert (t' <> []) as Ht' by (intros ->; cbn [length] in Ltt; lia).
  assert (length tl = 1499%nat) as Ltl by (cbn [length] in Lxt; lia).
  set (M := fold_left np_maximum tl h).
  assert (M == 0) as HM.
  { destruct (np_max_exact h tl) as (Hin & _). fold M in Hin.
    destruct (In_nth _ _ 0 Hin) as (i & _ & <-). apply Z. }
  assert (ltb 0 ((M - x_ref) / x_ref) = false) as Hy.
  { apply ltb_ge. unfold x_ref. cbn [lit exact]. rewrite HM.
    intros H; discriminate H. }
  assert (get_metrics (h :: tl) t' x_ref = Ok (0 * 100, 15.0)) as Mt.
  { rewrite (get_metrics_scan h tl x_ref 0 Ht'). rewrite Ltl.
    rewrite (settle_scan_last _ _ _ _ _ (hi := 1499) (i := 1499)).
    - rewrite (getitem_nth t' 0) by lia. cbn [bind].
      assert (2 <= 1500)%Z as H2 by lia.
      change (Qfloor (15.0 / 0.01)) with 1500%Z in Gt.
      change 1499%nat with (Z.to_nat 1500 - 1)%nat at 1.
      rewrite (@linspace_last Q exact (lit 0) 15.0 0 1500 t' H2 Gt).
      unfold py_max. cbn [lit sub div mul exact] in Hy |- *.
      fold M. now rewrite Hy.
    - rewrite Lxt. lia.
    - lia.
    - apply zero_sample_exceeds; [apply Z | intros H; discriminate H].
    - intros j Hj. lia. }
  assert (u_cost ut == 0) as Hc.
  { rewrite u_cost_sum_abs, sum_abs_zero; [reflexivity|].
    intros i. apply Z. }
  exists (Analysis t' xn un (h :: tl) ut (0 * 100) 15.0 osn tsn (u_cost ut)).
  split.
  { unfold analyse. cbn [lit exact] in *. rewrite Rn. cbn [bind].
    rewrite Rt. cbn [bind]. rewrite Mt. cbn [bind]. rewrite Mn.
    reflexivity. }
  cbn [x_true os_true ts_true cost].
  split; [apply Forall_nth; intros i d Hi;
          rewrite (nth_indep _ d 0 Hi); apply Z|].
  split; [reflexivity|]. split; [reflexivity|]. split; [exact Hc|].
  apply page_at_rest; [reflexivity | reflexivity | exact Hc].
Qed.

Lemma zero_gain_page_witness :
  let w := Widgets "File B: Truck Load Report (Heavy Load)" 0 1.5 0.5 1.4 0.6 in
  exists a,
    analyse w = Ok a /\
    Forall (fun z => z == 0) (x_true a) /\
    os_true a == 0 /\
    ts_true a = 15.0 /\
    cost a == 0 /\
    holmes_feedback (os_true a) (ts_true a) (cost a) = [car_stuck] /\
    case_report (os_true a) (ts_true a) (cost a)
      = ([LowOscillation; Economic], [SluggishResponse]).
Proof.
  apply (zero_gain_page
           (w := Widgets "File B: Truck Load Report (Heavy Load)"
                   0 1.5 0.5 1.4 0.6)).
  - split; cbn; try (split; intros H; discriminate H).
    right; left. reflexivity.
  - reflexivity.
Defined.

End ZeroGainPage.

(** ** The reference file and the graph *)

Section ReferenceAndGraph.

(** X12.  In binary64, whenever the evidence names File A the perturbed plant
    is
    the nominal one bit for bit ([1.0 * 2.0] and [1.0 * 0.8] are exact), so
    for every gain the two runs and their metrics coincide: the page
    compares the blue copy with itself. *)
Theorem file_A_is_the_reference (w : widgets (F := float)) :
  py_in "File A" (evidence w) = true ->
  m_true w = m_nom /\ c_true w = c_nom /\
  forall a, analyse w = Ok a ->
    x_true a = x_nom a /\ u_true a = u_nom a /\
    os_true a = os_nom a /\ ts_true a = ts_nom a.
Proof.
  intros HA.
  assert (m_true w = m_nom) as Em
    by (unfold m_true, evidence_file; rewrite HA; vm_compute; reflexivity).
  assert (c_true w = c_nom) as Ec
    by (unfold c_true, evidence_file; rewrite HA; vm_compute; reflexivity).
  split; [exact Em|]. split; [exact Ec|].
  intros a. unfold analyse. rewrite Em, Ec.
  destruct (simulate_bridge m_nom c_nom k_nom (Kp_slider w) x_ref
              (lit 15.0) (lit 0.01)) as [[[t x] u]|e]; [|discriminate].
  cbn [bind].
  destruct (get_metrics x t x_ref) as [[os ts]|e]; [|discriminate].
  cbn [bind]. intros H. injection H as <-.
  repeat split.
Qed.

Lemma file_A_is_the_reference_witness :
  let w : widgets (F := float) :=
    Widgets "File A: Blue Copy (Reference)"
      (lit 10) (lit 1.5) (lit 0.5) (lit 1.4) (lit 0.6) in
  m_true w = m_nom /\ c_true w = c_nom /\
  forall a, analyse w = Ok a ->
    x_true a = x_nom a /\ u_true a = u_nom a /\
    os_true a = os_nom a /\ ts_true a = ts_nom a.
Proof.
  apply (file_A_is_the_reference
           (Widgets "File A: Blue Copy (Reference)"
              (lit 10) (lit 1.5) (lit 0.5) (lit 1.4) (lit 0.6))).
  reflexivity.
Defined.

(** X19.  In any arithmetic the icons on the graph follow their own tests: the
    plane is drawn exactly when the turbulence finding is shown, the car
    exactly when [ts_true > 10.0].  The car test is a plain [if], not the
    [elif] of the feedback, so the car finding always comes with its icon
    while the icon can come without the finding. *)
Theorem graph_icons_and_findings {F : Type} {num : Scalar F}
        (t x_arr : list F) (os ts cost : F) marks :
  graph_icons t x_arr os ts = Ok marks ->
  let fb := holmes_feedback os ts cost in
  let icons := map snd marks in
  (In "✈️"%string icons <-> In turbulence fb) /\
  (In "🚗"%string icons <-> ltb (lit 10.0) ts = true) /\
  (In car_stuck fb -> In "🚗"%string icons) /\
  (length marks <= 2)%nat.
Proof.
  unfold graph_icons, holmes_feedback, feedback_block. cbn zeta.
  destruct (ltb (lit 30.0) os).
  - destruct (np_argmax x_arr) as [i|e]; [|discriminate]. cbn [bind].
    destruct (getitem t i) as [ti|e]; [|discriminate]. cbn [bind].
    destruct (np_max x_arr) as [peak|e]; [|discriminate]. cbn [bind].
    destruct (ltb (lit 10.0) ts).
    + destruct (getitem_last x_arr) as [final|e]; [|discriminate].
      cbn [bind]. intros H. injection H as <-.
      destruct (ltb (lit 500) cost), (ltb os (lit 15.0));
        cbn; repeat split; try lia; intuition discriminate.
    + intros H. injection H as <-.
      destruct (ltb (lit 500) cost), (ltb os (lit 15.0));
        cbn; repeat split; try lia; intuition discriminate.
  - cbn [bind]. destruct (ltb (lit 10.0) ts).
    + destruct (getitem_last x_arr) as [final|e]; [|discriminate].
      cbn [bind]. intros H. injection H as <-.
      destruct (ltb (lit 500) cost), (ltb os (lit 15.0));
        cbn; repeat split; try lia; intuition discriminate.
    + intros H. injection H as <-.
      destruct (ltb (lit 500) cost), (ltb os (lit 15.0));
        cbn; repeat split; try lia; intuition discriminate.
Qed.

Lemma graph_icons_and_findings_witness :
  let marks := [(2, 7, "✈️"); (12, 3, "🚗")]%float%string in
  let fb := holmes_feedback (F := float) 40%float 12%float 100%float in
  let icons := map snd marks in
  (In "✈️"%string icons <-> In turbulence fb) /\
  (In "🚗"%string icons <-> ltb (F := float) (lit 10.0) 12%float = true) /\
  (In car_stuck fb -> In "🚗"%string icons) /\
  (length marks <= 2)%nat.
Proof.
  apply (@graph_icons_and_findings float binary64
           [0; 1; 2; 3]%float [0; 5; 7; 3]%float
           40%float 12%float 100%float).
  vm_compute. reflexivity.
Defined.

End ReferenceAndGraph.

(** ** The peak on the graph *)

Section PeakMark.
Local Open Scope Q_scope.

Lemma argmax_from_exact (l : list Q) :
  forall (tl pre : list Q) (i0 : nat) (mp : Q) (idx : nat),
    l = pre ++ tl -> length pre = i0 -> (idx < i0)%nat ->
    nth idx l 0 = mp ->
    (forall j, (j < idx)%nat -> nth j l 0 < mp) ->
    (forall j, (idx <= j < i0)%nat -> nth j l 0 <= mp) ->
    let r := argmax_from tl i0 mp idx in
    (r < length l)%nat /\
    nth r l 0 = fold_left np_maximum tl mp /\
    (forall j, (j < r)%nat -> nth j l 0 < nth r l 0) /\
    (forall j, (j < length l)%nat -> nth j l 0 <= nth r l 0).
Proof.
  induction tl as [|h tl IH]; intros pre i0 mp idx El Lp Hidx Hmp Hlt Hle.
  - cbn [argmax_from fold_left]. rewrite app_nil_r in El. subst l.
    rewrite Hmp. repeat split; try lia; auto.
    intros j Hj. destruct (Nat.lt_ge_cases j idx) as [L | G].
    + apply Qlt_le_weak. now apply Hlt.
    + apply Hle. lia.
  - assert (nth i0 l 0 = h) as Hh by (subst l i0; apply nth_middle).
    assert (l = (pre ++ [h]) ++ tl) as El'
      by (rewrite <- app_assoc; exact El).
    assert (length (pre ++ [h]) = S i0) as Lp'
      by (rewrite length_app; cbn [length]; lia).
    cbn [argmax_from fold_left]. rewrite np_maximum_exact.
    cbn [leb eqb exact]. rewrite Qeq_bool_refl. cbn [negb].
    destruct (Qle_bool h mp) eqn:E; cbn [negb].
    + apply Qle_bool_iff in E.
      apply (IH (pre ++ [h]) (S i0) mp idx); auto.
      intros j Hj. destruct (Nat.eq_dec j i0) as [-> | Hne].
      * now rewrite Hh.
      * apply Hle. lia.
    + assert (mp < h) as Hgt.
      { apply Qnot_le_lt. intros L. apply Qle_bool_iff in L. congruence. }
      apply (IH (pre ++ [h]) (S i0) h i0); auto.
      * intros j Hj. destruct (Nat.lt_ge_cases j idx) as [L | G].
        -- apply Qlt_trans with mp; auto.
        -- apply Qle_lt_trans with mp; [apply Hle; lia | exact Hgt].
      * intros j Hj. assert (j = i0) as -> by lia. rewrite Hh.
        apply Qle_refl.
Qed.

(** X20.  In exact arithmetic [np.argmax] and [np.max] name the same sample:
    the
    index returned is within the trajectory, the sample there is the
    maximum, every earlier sample is strictly below it and no sample is
    above it.  So with a time base at least as long as the trajectory the
    plane, when it is drawn, sits on the first peak of the curve. *)
Theorem plane_marks_first_peak (t x_arr : list Q) (os ts : Q) :
  x_arr <> [] -> (length x_arr <= length t)%nat ->
  exists i peak marks,
    np_argmax x_arr = Ok i /\ np_max x_arr = Ok peak /\
    (i < length x_arr)%nat /\
    nth i x_arr 0 = peak /\
    (forall j, (j < i)%nat -> nth j x_arr 0 < peak) /\
    (forall j, (j < length x_arr)%nat -> nth j x_arr 0 <= peak) /\
    graph_icons t x_arr os ts = Ok marks /\
    (ltb (lit 30.0) os = true ->
     In (nth i t 0, nth i x_arr 0, "✈️"%string) marks).
Proof.
  intros Hx Hlen. destruct x_arr as [|h tl]; [congruence|].
  destruct (argmax_from_exact (l := h :: tl) tl [h] (i0 := 1) (mp := h)
              (idx := 0))
    as (Hr & Hv & Hfirst & Hall); auto; try (intros; lia).
  { intros j Hj. assert (j = 0)%nat as -> by lia. apply Qle_refl. }
  set (i := argmax_from tl 1 h 0) in *.
  assert (np_argmax (h :: tl) = Ok i) as Ea.
  { unfold np_argmax. cbn [eqb exact]. now rewrite Qeq_bool_refl. }
  assert (getitem t i = Ok (nth i t 0)) as Gi
    by (apply getitem_nth; lia).
  assert (getitem_last (h :: tl)
          = Ok (nth (length (h :: tl) - 1) (h :: tl) 0)) as Gl
    by (apply getitem_last_nth; congruence).
  exists i, (fold_left np_maximum tl h).
  unfold graph_icons. rewrite Ea, np_max_ok, Gl. cbn [bind]. rewrite Gi.
  cbn [bind].
  destruct (ltb (lit 30.0) os), (ltb (lit 10.0) ts); cbn [bind];
    eexists; (split; [reflexivity|]);
    (split; [reflexivity|]); (split; [exact Hr|]);
    (split; [exact Hv|]);
    (split; [intros j Hj; rewrite <- Hv; now apply Hfirst|]);
    (split; [intros j Hj; rewrite <- Hv; now apply Hall|]);
    (split; [reflexivity|]);
    intros H; try discriminate H; rewrite Hv; cbn; auto.
Qed.

Lemma plane_marks_first_peak_witness :
  let x_arr : list Q := [0; 1.5; 1.5; 1] in
  let t : list Q := [0; 1; 2; 3] in
  exists i peak marks,
    np_argmax x_arr = Ok i /\ np_max x_arr = Ok peak /\
    (i < length x_arr)%nat /\
    nth i x_arr 0 = peak /\
    (forall j, (j < i)%nat -> nth j x_arr 0 < peak) /\
    (forall j, (j < length x_arr)%nat -> nth j x_arr 0 <= peak) /\
    graph_icons t x_arr 50 2 = Ok marks /\
    (ltb (lit 30.0) 50 = true ->
     In (nth i t 0, nth i x_arr 0, "✈️"%string) marks).
Proof.
  intros x_arr t.
  apply (@plane_marks_first_peak t x_arr 50 2).
  - intros H; discriminate H.
  - cbn. lia.
Defined.

End PeakMark.

(** ** More on the simulator *)

Section SimulatorExtras.

(** X21.  Two runs that differ in the horizon only agree on their common
    samples: in any arithmetic the positions and velocities coincide up to
    the shorter length, and so do the controls except for the last sample
    of the shorter run, which is left at zero. *)
Theorem simulate_state_prefix {F : Type} {num : Scalar F}
        (m c k Kp x_target t_max t_max' dt : F) t x v u t' x' v' u' :
  simulate_state m c k Kp x_target t_max dt = Ok (t, x, v, u) ->
  simulate_state m c k Kp x_target t_max' dt = Ok (t', x', v', u') ->
  forall i, (i < length x)%nat -> (i < length x')%nat ->
    nth i x (lit 0) = nth i x' (lit 0) /\
    nth i v (lit 0) = nth i v' (lit 0) /\
    ((i + 1 < length x)%nat -> (i + 1 < length x')%nat ->
     nth i u (lit 0) = nth i u' (lit 0)).
Proof.
  intros Run Run'.
  assert (forall t_max t x v u,
            simulate_state m c k Kp x_target t_max dt = Ok (t, x, v, u) ->
            euler_inv m c k Kp x_target dt (length x) (length x - 1) x v u)
    as Inv_of.
  { clear. intros t_max t x v u Run.
    unfold simulate_state in Run.
    destruct (py_div t_max dt) as [q|e] eqn:Hq; [|discriminate Run].
    cbn [bind] in Run.
    destruct (to_int q) as [n|e] eqn:Hn; [|discriminate Run].
    cbn [bind] in Run.
    destruct (Z.lt_ge_cases n 0) as [Hneg | Hpos].
    - unfold np_linspace in Run. apply Z.ltb_lt in Hneg.
      rewrite Hneg in Run. discriminate Run.
    - destruct (simulate_state_run m c k Kp x_target t_max dt Hq Hn Hpos)
        as (t1 & x1 & v1 & u1 & Run1 & _ & _ & Inv).
      unfold simulate_state in Run1. rewrite Hq in Run1. cbn [bind] in Run1.
      rewrite Hn in Run1. cbn [bind] in Run1.
      rewrite Run in Run1. injection Run1 as -> -> -> ->.
      now rewrite (inv_len_x Inv). }
  pose proof (Inv_of _ _ _ _ _ Run) as [_ _ _ X0 V0 St _ _ _].
  pose proof (Inv_of _ _ _ _ _ Run') as [_ _ _ X0' V0' St' _ _ _].
  assert (forall i, (i < length x)%nat -> (i < length x')%nat ->
            nth i x (lit 0) = nth i x' (lit 0) /\
            nth i v (lit 0) = nth i v' (lit 0)) as P.
  { induction i as [|i IH]; intros Hi Hi'.
    - now rewrite X0, V0, X0', V0'.
    - destruct IH as (Ex & Ev); [lia | lia |].
      destruct (St i) as (Eu & Ev1 & Ex1); [lia|].
      destruct (St' i) as (Eu' & Ev1' & Ex1'); [lia|].
      replace (S i) with (i + 1)%nat by lia.
      rewrite Ex1, Ev1, Ex1', Ev1', Eu, Eu', Ex, Ev. split; reflexivity. }
  intros i Hi Hi'. destruct (P i Hi Hi') as (Ex & Ev).
  split; [exact Ex|]. split; [exact Ev|].
  intros Hi1 Hi1'.
  destruct (St i) as (Eu & _); [lia|].
  destruct (St' i) as (Eu' & _); [lia|].
  now rewrite Eu, Eu', Ex.
Qed.

Lemma simulate_state_prefix_witness :
  nth 0 [0; 0]%float (lit 0)
  = nth 0 [0; 0; 0.3125; 0.8984375]%float (lit 0)
  /\ nth 0 [0; 1.25]%float (lit 0)
     = nth 0 [0; 1.25; 2.34375; 2.51953125]%float (lit 0)
  /\ ((0 + 1 < 2)%nat -> (0 + 1 < 4)%nat ->
      nth 0 [10; 0]%float (lit 0)
      = nth 0 [10; 10; 6.875; 0]%float (lit 0)).
Proof.
  apply (@simulate_state_prefix float binary64
           2%float 1%float 10%float 10%float 1%float 0.5%float 1%float
           0.25%float
           [0; 0.5]%float [0; 0]%float [0; 1.25]%float [10; 0]%float
           (match np_linspace (F := float) 0%float 1%float 4 with
            | Ok t => t | Raise _ => [] end)
           [0; 0; 0.3125; 0.8984375]%float
           [0; 1.25; 2.34375; 2.51953125]%float
           [10; 10; 6.875; 0]%float);
    try (vm_compute; reflexivity); cbn; lia.
Defined.

Local Open Scope Q_scope.

Lemma sum_abs_pointwise (u w : list Q) :
  length u = length w ->
  (forall i, (i < length u)%nat -> Qabs (nth i u 0) == Qabs (nth i w 0)) ->
  sum_abs u == sum_abs w.
Proof.
  revert w; induction u as [|a u IH]; intros [|b w] Hlen H;
    try discriminate Hlen; [reflexivity|].
  cbn [sum_abs].
  rewrite (IH w) by
    (try (cbn [length] in Hlen; lia);
     intros i Hi; apply (H (S i)); cbn [length]; lia).
  pose proof (H 0%nat) as H0. cbn [nth length] in H0.
  rewrite H0 by lia. reflexivity.
Qed.

Lemma sum_abs_scaled (Kp x_target : Q) (l : list Q) :
  0 <= Kp ->
  sum_abs (map (fun xi => Kp * (x_target - xi)) l)
  == Kp * sum_abs (map (fun xi => x_target - xi) l).
Proof.
  intros HK. induction l as [|a l IH]; cbn [map sum_abs]; [ring|].
  rewrite IH, Qabs_Qmult, (Qabs_pos Kp HK). ring.
Qed.

(** X22.  In exact arithmetic the cost of a valid run is the tariff times the
    gain times the accumulated tracking error: [0.1 * Kp] times the sum of
    [|x_target - x[i]|] over the samples [0 .. n-2] that received a control.
    The last sample contributes nothing. *)
Theorem u_cost_is_gain_times_error (m c k Kp x_target t_max dt : Q) :
  valid_input m c k Kp t_max dt ->
  exists t x u,
    simulate_bridge m c k Kp x_target t_max dt = Ok (t, x, u) /\
    u_cost u ==
      0.1 * Kp * sum_abs (map (fun xi => x_target - xi)
                            (firstn (length x - 1) x)).
Proof.
  intros V.
  destruct (valid_step_count V) as (Hq & Hn & Hge).
  destruct (simulate_state_run m c k Kp x_target t_max dt Hq Hn)
    as (t & x & v & u & Run & _ & _ & Inv); [lia|].
  exists t, x, u.
  split; [now apply simulate_bridge_of_state with v|].
  destruct Inv as [Lx Lv Lu X0 V0 St Rx Rv Ru].
  set (n := Z.to_nat (Qfloor (t_max / dt))) in *.
  assert (1 <= n)%nat as Hn1 by (unfold n; lia).
  rewrite u_cost_sum_abs, Lx.
  rewrite (sum_abs_pointwise u
             (map (fun xi => Kp * (x_target - xi)) (firstn (n - 1) x)
              ++ [0])).
  - rewrite sum_abs_app, (sum_abs_scaled _ _ (gain_nonneg V)).
    cbn [sum_abs]. change (Qabs 0) with 0. ring.
  - rewrite length_app, length_map, length_firstn, Lu, Lx. cbn [length]. lia.
  - intros i Hi. rewrite Lu in Hi.
    destruct (Nat.lt_ge_cases i (n - 1)) as [Lt | Ge].
    + rewrite app_nth1 by (rewrite length_map, length_firstn, Lx; lia).
      rewrite (nth_indep
                 (map (fun xi => Kp * (x_target - xi)) (firstn (n - 1) x))
                 0 (Kp * (x_target - 0)))
        by (rewrite length_map, length_firstn, Lx; lia).
      rewrite (map_nth (fun xi => Kp * (x_target - xi))).
      rewrite nth_firstn.
      replace (i <? n - 1)%nat with true by (symmetry; apply Nat.ltb_lt; lia).
      destruct (St i Lt) as (Eu & _). cbn [lit mul sub exact] in Eu.
      rewrite Eu. reflexivity.
    + assert (i = n - 1)%nat as -> by lia.
      rewrite app_nth2 by (rewrite length_map, length_firstn, Lx; lia).
      rewrite length_map, length_firstn, Lx.
      replace (n - 1 - Nat.min (n - 1) n)%nat with 0%nat by lia.
      cbn [nth].
      specialize (Ru (n - 1)%nat (Nat.le_refl _)). cbn [lit exact] in Ru.
      rewrite Ru. reflexivity.
Qed.

Lemma u_cost_is_gain_times_error_witness :
  exists t x u : list Q,
    simulate_bridge 2 0.8 10 10 1 15.0 0.01 = Ok (t, x, u) /\
    u_cost u ==
      0.1 * 10 * sum_abs (map (fun xi => 1 - xi) (firstn (length x - 1) x)).
Proof.
  apply (u_cost_is_gain_times_error (m := 2) (c := 0.8) (k := 10)
           (Kp := 10) 1 (t_max := 15.0) (dt := 0.01)).
  split; reflexivity || (intros H; discriminate H).
Defined.

End SimulatorExtras.
